(** * serial_monitor.py: a timed serial-port monitor

    A shallow embedding of [serial_monitor.py].  The script opens
    [/dev/ttyUSB0], prints a banner, clears the input buffer, then for
    20 seconds polls the port, printing every non-empty received line
    behind a [[HH:MM:SS]] timestamp, and finally closes the port.  Three
    [except] clauses surround the whole run.

    The script talks to the outside world through library calls only
    (pyserial, [time], [print]).  Each such call is one _environment
    interaction_; a [World] fixes, for the n-th interaction, whether it
    raises, how long it takes and which bytes reach the port meanwhile.
    The script itself is a term of a state-and-exception monad over a
    [State] holding the Python variable [ser], the clock, standard output
    and a log of the interactions made. *)

From Stdlib Require Import ZArith NArith List String Ascii Bool Lia Arith.
From Stdlib Require Import Strings.Byte DecimalString.
Import ListNotations.

Local Open Scope Z_scope.

(** ** Text and bytes *)

(** A Python [str] is a sequence of Unicode code points; [bytes] is a
    sequence of octets. *)
Definition str := list N.

Definition text (s : string) : str := map N_of_ascii (list_ascii_of_string s).

Definition NL : N := 10.
Definition SPACE : N := 32.
Definition REPLACEMENT : N := 0xFFFD.

(** *** [bytes.decode('utf-8', errors=...)]

    The decoder of CPython cuts its input into well-formed scalar values
    and malformed stretches; the error handler then decides what a
    malformed stretch becomes.  A stretch is one byte for an invalid start
    byte, the bytes before the offending one for an invalid continuation
    byte, and everything up to the end of the input for a truncated
    sequence. *)
Inductive chunk :=
| Scalar (cp : N)
| Malformed (width : nat).

Definition is_continuation (c : N) : bool := ((0x80 <=? c) && (c <=? 0xBF))%N.

(** second byte of a three-byte sequence: excludes overlong forms after
    E0 and surrogates after ED *)
Definition second_of_3 (c0 c1 : N) : bool :=
  (is_continuation c1
   && (if c1 <? 0xA0 then negb (c0 =? 0xE0) else negb (c0 =? 0xED)))%N.

(** second byte of a four-byte sequence: excludes overlong forms after
    F0 and values above U+10FFFF after F4 *)
Definition second_of_4 (c0 c1 : N) : bool :=
  (is_continuation c1
   && (if c1 <? 0x90 then negb (c0 =? 0xF0) else negb (c0 =? 0xF4)))%N.

Fixpoint utf8_scan (bs : list byte) : list chunk :=
  match bs with
  | [] => []
  | b0 :: r0 =>
    let c0 := Byte.to_N b0 in
    if (c0 <? 0x80)%N then Scalar c0 :: utf8_scan r0
    else if (c0 <? 0xC2)%N then Malformed 1 :: utf8_scan r0
    else if (c0 <? 0xE0)%N then
      match r0 with
      | [] => [Malformed 1]
      | b1 :: r1 =>
        let c1 := Byte.to_N b1 in
        if is_continuation c1
        then Scalar ((c0 - 0xC0) * 64 + (c1 - 0x80))%N :: utf8_scan r1
        else Malformed 1 :: utf8_scan r0
      end
    else if (c0 <? 0xF0)%N then
      match r0 with
      | [] => [Malformed 1]
      | b1 :: r1 =>
        let c1 := Byte.to_N b1 in
        if second_of_3 c0 c1 then
          match r1 with
          | [] => [Malformed 2]
          | b2 :: r2 =>
            let c2 := Byte.to_N b2 in
            if is_continuation c2
            then Scalar ((c0 - 0xE0) * 4096 + (c1 - 0x80) * 64
                         + (c2 - 0x80))%N :: utf8_scan r2
            else Malformed 2 :: utf8_scan r1
          end
        else Malformed 1 :: utf8_scan r0
      end
    else if (c0 <? 0xF5)%N then
      match r0 with
      | [] => [Malformed 1]
      | b1 :: r1 =>
        let c1 := Byte.to_N b1 in
        if second_of_4 c0 c1 then
          match r1 with
          | [] => [Malformed 2]
          | b2 :: r2 =>
            let c2 := Byte.to_N b2 in
            if is_continuation c2 then
              match r2 with
              | [] => [Malformed 3]
              | b3 :: r3 =>
                let c3 := Byte.to_N b3 in
                if is_continuation c3
                then Scalar ((c0 - 0xF0) * 262144 + (c1 - 0x80) * 4096
                             + (c2 - 0x80) * 64 + (c3 - 0x80))%N
                     :: utf8_scan r3
                else Malformed 3 :: utf8_scan r2
              end
            else Malformed 2 :: utf8_scan r1
          end
        else Malformed 1 :: utf8_scan r0
      end
    else Malformed 1 :: utf8_scan r0
  end.

(** The two error handlers the codec is used with: ['strict'] (the
    default) raises [UnicodeDecodeError] at the first malformed stretch,
    ['replace'] puts U+FFFD in its place and goes on. *)
Inductive error_handler := Strict | Replace.

Fixpoint apply_handler (h : error_handler) (cs : list chunk) : option str :=
  match cs with
  | [] => Some []
  | Scalar cp :: cs' => option_map (cons cp) (apply_handler h cs')
  | Malformed _ :: cs' =>
    match h with
    | Strict => None
    | Replace => option_map (cons REPLACEMENT) (apply_handler h cs')
    end
  end.

(** [None] stands for a raised [UnicodeDecodeError]. *)
Definition decode_utf8 (h : error_handler) (bs : list byte) : option str :=
  apply_handler h (utf8_scan bs).

(** *** [str.rstrip()]

    Without argument [rstrip] removes trailing white space, the code
    points for which [str.isspace] holds. *)
Definition is_space (c : N) : bool :=
  (((0x09 <=? c) && (c <=? 0x0D)) || ((0x1C <=? c) && (c <=? 0x20))
   || (c =? 0x85) || (c =? 0xA0) || (c =? 0x1680)
   || ((0x2000 <=? c) && (c <=? 0x200A))
   || (c =? 0x2028) || (c =? 0x2029) || (c =? 0x202F) || (c =? 0x205F)
   || (c =? 0x3000))%N.

Fixpoint rstrip (s : str) : str :=
  match s with
  | [] => []
  | c :: s' =>
    match rstrip s' with
    | [] => if is_space c then [] else [c]
    | kept => c :: kept
    end
  end.

(** truth value of a [str]: non-empty *)
Definition truthy (s : str) : bool :=
  match s with [] => false | _ => true end.

(** *** [time.strftime('[%H:%M:%S]')] *)

Definition NS_PER_S : Z := 1000000000.

Definition two_digits (n : Z) : str :=
  [Z.to_N (48 + n / 10); Z.to_N (48 + n mod 10)].

(** second of the local day at clock reading [t] (nanoseconds since the
    epoch) for a zone [offset] seconds east of UTC *)
Definition second_of_day (offset t : Z) : Z := (t / NS_PER_S + offset) mod 86400.

Definition clock_text (sod : Z) : str :=
  text "[" ++ two_digits (sod / 3600) ++ text ":"
  ++ two_digits (sod / 60 mod 60) ++ text ":"
  ++ two_digits (sod mod 60) ++ text "]".

(** ** Exceptions *)

(** The classes the script's [except] clauses tell apart:
    [serial.SerialException]; [KeyboardInterrupt], which is _not_ a
    subclass of [Exception]; and [OtherException] for every other
    subclass of [Exception] ([OSError], [NameError], ...).  The [str]
    is what [str(e)] gives. *)
Inductive exn :=
| SerialException (msg : str)
| KeyboardInterrupt
| OtherException (msg : str).

(** [isinstance(e, Exception)] *)
Definition is_Exception (e : exn) : bool :=
  match e with KeyboardInterrupt => false | _ => true end.

(** [str(e)], as interpolated into the f-strings *)
Definition str_of_exn (e : exn) : str :=
  match e with
  | SerialException m => m
  | KeyboardInterrupt => []
  | OtherException m => m
  end.

Definition name_error : exn := OtherException (text "name 'ser' is not defined").
Definition port_not_open : exn :=
  SerialException (text "Attempting to use a port that is not open").

(** ** World and state *)

(** The library operations the script invokes.  [OpClose] remembers
    whether the port was open when [close()] was invoked; [OpUnbound]
    marks a use of the name [ser] before its assignment. *)
Inductive op :=
| OpOpen
| OpPrint (line : str)
| OpReset
| OpTime
| OpInWaiting
| OpReadline
| OpStrftime
| OpFlush
| OpSleep
| OpClose (was_open : bool)
| OpUnbound.

(** One entry of the interaction log: which operation, at which
    interaction number, and the exception it raised if any. *)
Record event := mkEvent { at_tick : nat; ev_op : op; ev_raised : option exn }.

(** A received byte, stamped with the number of the interaction during
    which it reached the port. *)
Definition rx := (nat * byte)%type.

(** The pyserial object: open flag and input buffer. *)
Record Serial := mkSerial { is_open : bool; in_buffer : list rx }.

Record State := mkState {
  tick : nat;               (* interactions made so far *)
  now : Z;                  (* wall clock, nanoseconds *)
  ser : option Serial;      (* the variable [ser]; [None] while unbound *)
  stdout : list str;        (* lines printed, oldest first *)
  rx_log : list rx;         (* bytes handed out by [readline] *)
  trace : list event        (* interaction log, oldest first *)
}.

Record World := mkWorld {
  fault : nat -> option exn;   (* exception raised by the n-th interaction *)
  latency : nat -> Z;          (* clock advance during the n-th interaction *)
  arrive : nat -> list byte;   (* bytes reaching the port during it *)
  boot_time : Z;               (* clock when the script starts *)
  utc_offset : Z               (* local zone, seconds east of UTC *)
}.

(** ** The monad *)

Inductive result (A : Type) :=
| Ok (a : A)
| Raise (e : exn)
| OutOfFuel.
Arguments Ok {A} a.
Arguments Raise {A} e.
Arguments OutOfFuel {A}.

Definition M (A : Type) := State -> State * result A.

Definition ret {A} (a : A) : M A := fun s => (s, Ok a).

Definition bind {A B} (m : M A) (k : A -> M B) : M B :=
  fun s =>
    match m s with
    | (s1, Ok a) => k a s1
    | (s1, Raise e) => (s1, Raise e)
    | (s1, OutOfFuel) => (s1, OutOfFuel)
    end.

Definition raise {A} (e : exn) : M A := fun s => (s, Raise e).

(** [try: m except Exception as e: h e] *)
Definition try_except_Exception {A} (m : M A) (h : exn -> M A) : M A :=
  fun s =>
    match m s with
    | (s1, Raise e) => if is_Exception e then h e s1 else (s1, Raise e)
    | other => other
    end.

Declare Scope monad_scope.
Delimit Scope monad_scope with monad.
Notation "x <- m ;; k" := (bind m (fun x => k))
  (at level 100, m at next level, right associativity) : monad_scope.
Notation "m ;; k" := (bind m (fun _ => k))
  (at level 100, right associativity) : monad_scope.
Local Open Scope monad_scope.

(** ** Constants of the script *)

(** an integer as an f-string renders it *)
Definition decimal (z : Z) : str := text (NilZero.string_of_int (Z.to_int z)).

Definition PORT : str := text "/dev/ttyUSB0".
Definition BAUDRATE : Z := 115200.
Definition RUN_NS : Z := 20 * NS_PER_S.          (* [< 20] seconds *)
Definition SLEEP_NS : Z := 10000000.             (* [time.sleep(0.01)] *)
Definition TIMEOUT_NS : Z := 1 * NS_PER_S.       (* [timeout=1] *)

Definition banner : list str :=
  [ text "=== ESP32 Serial Monitor ===";
    text "Port: " ++ PORT ++ text ", Baud: " ++ decimal BAUDRATE;
    text "Press Ctrl+C to exit";
    repeat 61%N 50 ].

Definition msg_complete : str := NL :: text "Monitoring complete.".
Definition msg_stopped : str := NL :: text "Monitoring stopped by user.".
Definition msg_open_error (e : exn) : str :=
  text "Error opening serial port: " ++ str_of_exn e.
Definition msg_line_error (e : exn) : str :=
  text "Error reading line: " ++ str_of_exn e.
Definition msg_unexpected (e : exn) : str :=
  text "Unexpected error: " ++ str_of_exn e.

(** ** Library operations *)

Definition init_state (w : World) : State :=
  mkState 0 (boot_time w) None [] [] [].

(** [readline]: the bytes up to and including the first newline, or the
    whole buffer when the timeout ends the read first. *)
Fixpoint split_line (buf : list rx) : list rx * list rx :=
  match buf with
  | [] => ([], [])
  | x :: rest =>
    if Byte.eqb (snd x) x0a then ([x], rest)
    else let (line, rest') := split_line rest in (x :: line, rest')
  end.

Definition set_port (p : Serial) (s : State) : State :=
  mkState (tick s) (now s) (Some p) (stdout s) (rx_log s) (trace s).

Definition log (ev : event) (s : State) : State :=
  mkState (tick s) (now s) (ser s) (stdout s) (rx_log s) (trace s ++ [ev]).

Section Program.

Variable w : World.

(** the bytes reaching the port during the interaction about to be
    made, stamped with its number *)
Definition incoming (s : State) : list rx :=
  map (pair (tick s)) (arrive w (tick s)).

(** The port as it is once those bytes have reached it; a closed or
    absent port receives nothing. *)
Definition deliver (s : State) : option Serial :=
  match ser s with
  | Some p =>
    if is_open p
    then Some (mkSerial true (in_buffer p ++ incoming s))
    else Some p
  | None => None
  end.

(** One interaction with the environment: time passes, bytes arrive,
    the call is logged, and it returns or raises as the world says. *)
Definition after_call (o : op) (s : State) : State :=
  mkState (S (tick s)) (now s + latency w (tick s)) (deliver s)
    (stdout s) (rx_log s)
    (trace s ++ [mkEvent (tick s) o (fault w (tick s))]).

Definition env_call (o : op) : M unit :=
  fun s =>
    match fault w (tick s) with
    | Some e => (after_call o s, Raise e)
    | None => (after_call o s, Ok tt)
    end.

(** evaluation of the name [ser] *)
Definition lookup_ser : M Serial :=
  fun s =>
    match ser s with
    | Some p => (s, Ok p)
    | None => (log (mkEvent (tick s) OpUnbound (Some name_error)) s,
               Raise name_error)
    end.

(** [ser = serial.Serial(PORT, BAUDRATE, timeout=1)] *)
Definition Serial_open : M unit :=
  env_call OpOpen ;;
  fun s => (set_port (mkSerial true []) s, Ok tt).

(** [print(line)] *)
Definition print (line : str) : M unit :=
  env_call (OpPrint line) ;;
  fun s => (mkState (tick s) (now s) (ser s) (stdout s ++ [line])
              (rx_log s) (trace s), Ok tt).

(** [ser.reset_input_buffer()] *)
Definition ser_reset_input_buffer : M unit :=
  p <- lookup_ser ;;
  if is_open p then
    env_call OpReset ;;
    fun s => (set_port (mkSerial true []) s, Ok tt)
  else raise port_not_open.

(** [time.time()] *)
Definition time_time : M Z :=
  env_call OpTime ;;
  fun s => (s, Ok (now s)).

(** [ser.in_waiting] *)
Definition ser_in_waiting : M nat :=
  p <- lookup_ser ;;
  if is_open p then
    env_call OpInWaiting ;;
    fun s => (s, Ok (match ser s with
                     | Some q => List.length (in_buffer q)
                     | None => 0%nat
                     end))
  else raise port_not_open.

(** [ser.readline()] *)
Definition ser_readline : M (list rx) :=
  p <- lookup_ser ;;
  if is_open p then
    env_call OpReadline ;;
    fun s =>
      match ser s with
      | Some q =>
        let (line, rest) := split_line (in_buffer q) in
        (mkState (tick s) (now s) (Some (mkSerial (is_open q) rest))
           (stdout s) (rx_log s ++ line) (trace s), Ok line)
      | None => (s, Ok [])
      end
  else raise port_not_open.

(** [time.strftime('[%H:%M:%S]')] *)
Definition time_strftime : M str :=
  env_call OpStrftime ;;
  fun s => (s, Ok (clock_text (second_of_day (utc_offset w) (now s)))).

(** [sys.stdout.flush()] *)
Definition sys_stdout_flush : M unit := env_call OpFlush.

(** [time.sleep(0.01)]: returns no sooner than 10 ms after the call *)
Definition time_sleep : M unit :=
  env_call OpSleep ;;
  fun s => (mkState (tick s) (now s + SLEEP_NS) (ser s) (stdout s)
              (rx_log s) (trace s), Ok tt).

(** [ser.close()] *)
Definition ser_close : M unit :=
  p <- lookup_ser ;;
  env_call (OpClose (is_open p)) ;;
  fun s => (set_port (mkSerial false []) s, Ok tt).

(** ** The script *)

(** lines 27-31 *)
Definition read_and_print : M unit :=
  raw <- ser_readline ;;
  match decode_utf8 Replace (map snd raw) with
  | None => raise (OtherException (text "'utf-8' codec can't decode"))
  | Some decoded =>
    let line := rstrip decoded in
    if truthy line then
      timestamp <- time_strftime ;;
      print (timestamp ++ [SPACE] ++ line) ;;
      sys_stdout_flush
    else ret tt
  end.

(** lines 26-33 *)
Definition guarded_read : M unit :=
  try_except_Exception read_and_print (fun e => print (msg_line_error e)).

(** lines 25-35 *)
Definition loop_body : M unit :=
  n <- ser_in_waiting ;;
  if (0 <? n)%nat then guarded_read else time_sleep.

(** lines 24-35; [fuel] bounds the number of iterations examined *)
Fixpoint loop (fuel : nat) (start_time : Z) : M unit :=
  match fuel with
  | O => fun s => (s, OutOfFuel)
  | S fuel' =>
    t <- time_time ;;
    if t - start_time <? RUN_NS
    then loop_body ;; loop fuel' start_time
    else ret tt
  end.

(** lines 12-23: open the port, print the banner, clear the input
    buffer, record the start time *)
Definition startup : M Z :=
  Serial_open ;;
  print (nth 0 banner []) ;;
  print (nth 1 banner []) ;;
  print (nth 2 banner []) ;;
  print (nth 3 banner []) ;;
  ser_reset_input_buffer ;;
  time_time.

(** lines 12-38, the body of the outer [try] *)
Definition try_body (fuel : nat) : M unit :=
  start_time <- startup ;;
  loop fuel start_time ;;
  ser_close ;;
  print msg_complete.

(** line 44: ['ser' in locals() and ser.is_open] *)
Definition ser_bound_and_open (s : State) : bool :=
  match ser s with
  | Some p => is_open p
  | None => false
  end.

(** lines 40-47, the three [except] clauses *)
Definition handler (e : exn) : M unit :=
  match e with
  | SerialException _ => print (msg_open_error e)
  | KeyboardInterrupt =>
    print msg_stopped ;;
    fun s => if ser_bound_and_open s then ser_close s else (s, Ok tt)
  | OtherException _ => print (msg_unexpected e)
  end.

(** How the process ends: exit status 0 when control falls off the end
    of the script, a traceback when an exception escapes it. *)
Inductive outcome :=
| Exit (status : Z)
| Traceback (e : exn)
| Running.

Definition finish (r : State * result unit) : State * outcome :=
  match r with
  | (s, Ok _) => (s, Exit 0)
  | (s, Raise e) => (s, Traceback e)
  | (s, OutOfFuel) => (s, Running)
  end.

(** the whole script, started in state [s] *)
Definition monitor_from (fuel : nat) (s : State) : State * outcome :=
  match try_body fuel s with
  | (s1, Raise e) => finish (handler e s1)
  | other => finish other
  end.

Definition monitor (fuel : nat) : State * outcome :=
  monitor_from fuel (init_state w).

End Program.

(** ** Vocabulary of the statements *)

(** [triple P m Q E]: started in a state satisfying [P], [m] ends in a
    state satisfying [Q] when it returns, and [E] when it raises or the
    fuel is spent. *)
Definition triple {A} (P : State -> Prop) (m : M A)
    (Q : A -> State -> Prop) (E : State -> Prop) : Prop :=
  forall s, P s ->
    match m s with
    | (s', Ok a) => Q a s'
    | (s', _) => E s'
    end.

(** every logged operation but a [close()] that met a closed port and a
    use of [ser] before its assignment *)
Definition sound_op (o : op) : bool :=
  match o with
  | OpClose false => false
  | OpUnbound => false
  | _ => true
  end.

(** no such operation was logged *)
Definition safe_trace (s : State) : Prop :=
  Forall (fun ev => sound_op (ev_op ev) = true) (trace s).

(** [keeps b]: the log is sound and [ser] is bound to an open port
    exactly when [b] says so *)
Definition keeps (b : bool) (s : State) : Prop :=
  safe_trace s /\ ser_bound_and_open s = b.

(** operations of the timed phase: recording the start time and
    everything only the loop does *)
Definition timed (o : op) : bool :=
  match o with
  | OpTime | OpInWaiting | OpReadline | OpStrftime | OpFlush | OpSleep => true
  | _ => false
  end.

(** [ser.reset_input_buffer()], returned or not *)
Definition is_reset (o : op) : bool :=
  match o with OpReset => true | _ => false end.

(** every byte of [l] reached the port after interaction [r] *)
Definition fresh_after (r : nat) (l : list rx) : Prop :=
  Forall (fun x => (r < fst x)%nat) l.

(** the timed phase has not begun and nothing was read *)
Definition untimed (s : State) : Prop :=
  rx_log s = [] /\ Forall (fun ev => timed (ev_op ev) = false) (trace s).

(** ... and no reset was attempted either *)
Definition pristine (s : State) : Prop :=
  untimed s /\ Forall (fun ev => is_reset (ev_op ev) = false) (trace s).

(** The log holds exactly one reset, it returned, it was interaction
    [r], nothing of the timed phase precedes it, and every byte handed
    out by [readline] arrived after it. *)
Definition reset_at (r : nat) (s : State) : Prop :=
  (exists pre post,
      trace s = pre ++ mkEvent r OpReset None :: post
      /\ Forall (fun ev => timed (ev_op ev) = false
                           /\ is_reset (ev_op ev) = false) pre
      /\ Forall (fun ev => is_reset (ev_op ev) = false) post)
  /\ fresh_after r (rx_log s).

(** ... and so did every byte still waiting in the buffer *)
Definition flushed (r : nat) (s : State) : Prop :=
  reset_at r s /\ (r < tick s)%nat
  /\ match ser s with
     | Some p => fresh_after r (in_buffer p)
     | None => True
     end.

(** how a run can stand with respect to the reset when it ends *)
Definition reset_discipline (s : State) : Prop :=
  untimed s \/ exists r, reset_at r s.

(** at the end of the [try] body: still before the reset, or in the
    second phase *)
Definition phase (s : State) : Prop :=
  untimed s \/ exists r, flushed r s.

(** what ['replace'] makes of a chunk *)
Definition repair (c : chunk) : N :=
  match c with
  | Scalar cp => cp
  | Malformed _ => REPLACEMENT
  end.

(** [[HH:MM:SS]] with HH below 24 and MM, SS below 60 *)
Definition hh_mm_ss (t : str) : Prop :=
  exists h m sec,
    0 <= h < 24 /\ 0 <= m < 60 /\ 0 <= sec < 60
    /\ t = text "[" ++ two_digits h ++ text ":" ++ two_digits m
           ++ text ":" ++ two_digits sec ++ text "]".

(** the next [k] interactions from the [n]-th on raise nothing *)
Definition calm (w : World) (n k : nat) : Prop :=
  forall i, (i < k)%nat -> fault w (n + i) = None.

(** the chunk is a malformed stretch *)
Definition malformed (c : chunk) : Prop :=
  match c with Malformed _ => True | Scalar _ => False end.

(** the one line each clause prints *)
Definition handler_message (e : exn) : str :=
  match e with
  | SerialException _ => msg_open_error e
  | KeyboardInterrupt => msg_stopped
  | OtherException _ => msg_unexpected e
  end.

(** The bytes [readline] returns in the round begun in state [s] with
    port [p]: the first line of what waits when [in_waiting] is
    consulted followed by what arrives while [readline] runs. *)
Definition next_line (w : World) (s : State) (p : Serial) : list byte :=
  map snd (fst (split_line
    ((in_buffer p ++ incoming w s)
     ++ map (pair (S (tick s))) (arrive w (S (tick s)))))).

(** the timestamp of that round: the local time when [strftime], the
    third call of the round, returns *)
Definition stamp_at (w : World) (s : State) : str :=
  clock_text (second_of_day (utc_offset w)
    (now s + latency w (tick s) + latency w (S (tick s))
     + latency w (S (S (tick s))))).

(** Assumptions on the world for the idle run: nothing is raised,
    nothing arrives, the clock never runs backwards, and one idle round
    (clock reading, availability query, 10 ms sleep) takes no longer
    than the read timeout. *)
Definition never_raises (w : World) : Prop := forall n, fault w n = None.
Definition silent (w : World) : Prop := forall n, arrive w n = [].
Definition clock_monotone (w : World) : Prop := forall n, 0 <= latency w n.
Definition round_within_timeout (w : World) : Prop :=
  forall n,
    latency w n + latency w (S n) + latency w (S (S n)) + SLEEP_NS
    <= TIMEOUT_NS.

(** ** Sample worlds *)

(** nothing raises, every interaction takes a millisecond, the zone is
    one hour east of UTC, and [data] reaches the port during the
    interaction numbered [at] *)
Definition world_with (at_ : nat) (data : list byte) (raising : nat)
    (e : option exn) : World :=
  mkWorld (fun n => if Nat.eqb n raising then e else None)
    (fun _ => 1000000)
    (fun n => if Nat.eqb n at_ then data else [])
    0 3600.

(** no traffic, no trouble *)
Definition world_idle : World :=
  mkWorld (fun _ => None) (fun _ => 1000000) (fun _ => []) 0 3600.

(** [b"hello\r\n"] arrives during the first clock reading of the loop *)
Definition world_hello : World :=
  world_with 7 [x68; x65; x6c; x6c; x6f; x0d; x0a] 0 None.

(** [b"\xffbad\r\n"] arrives instead *)
Definition world_bad_utf8 : World :=
  world_with 7 [xff; x62; x61; x64; x0d; x0a] 0 None.

(** the port cannot be opened *)
Definition world_no_port : World :=
  world_with 0 [] 0
    (Some (SerialException (text "could not open port /dev/ttyUSB0"))).

(** a line arrives, but reading it fails *)
Definition world_read_fails : World :=
  world_with 7 [x68; x69; x0a] 9
    (Some (SerialException (text "device reports readiness to read but returned no data"))).

(** Ctrl+C during the first sleep of the loop *)
Definition world_ctrl_c : World := world_with 0 [] 9 (Some KeyboardInterrupt).

(** Ctrl+C while the port is being opened *)
Definition world_ctrl_c_early : World :=
  world_with 0 [] 0 (Some KeyboardInterrupt).

(** the device is unplugged: the first availability query fails with
    an [OSError] *)
Definition world_unplugged : World :=
  world_with 0 [] 8 (Some (OtherException (text "[Errno 5] Input/output error"))).

(** stale bytes [b"old\n"] arrive while the banner is printed, fresh
    ones [b"new\n"] once the loop runs *)
Definition world_stale : World :=
  mkWorld (fun _ => None) (fun _ => 1000000)
    (fun n => if Nat.eqb n 3 then [x6f; x6c; x64; x0a]
              else if Nat.eqb n 7 then [x6e; x65; x77; x0a] else [])
    0 3600.

(** the state in which the first iteration of the loop examines the port *)
Definition first_poll (w : World) : State :=
  fst (time_time w (fst (startup w (init_state w)))).

(** ** Further vocabulary *)

(** every library call takes at least [d] nanoseconds *)
Definition steady (w : World) (d : Z) : Prop := forall n, d <= latency w n.

(** each library call takes five seconds; a line arrives during the
    first clock reading of the loop *)
Definition world_slow : World :=
  mkWorld (fun _ => None) (fun _ => 5 * NS_PER_S)
    (fun n => if Nat.eqb n 7 then [x6f; x6b; x0a] else [])
    0 0.

(** the device goes away right after the banner: [reset_input_buffer]
    raises a [SerialException] *)
Definition world_reset_fails : World :=
  world_with 0 [] 5 (Some (SerialException (text "device disconnected"))).

(** some library call made so far raised [e] *)
Definition raised_by_world (w : World) (e : exn) (s : State) : Prop :=
  exists n, (n < tick s)%nat /\ fault w n = Some e.

(** [guards P m Q E]: like [triple], with a postcondition for raises
    that sees the exception; a run out of fuel is not constrained. *)
Definition guards {A} (P : State -> Prop) (m : M A)
    (Q : A -> State -> Prop) (E : exn -> State -> Prop) : Prop :=
  forall s, P s ->
    match m s with
    | (s', Ok a) => Q a s'
    | (s', Raise e) => E e s'
    | (_, OutOfFuel) => True
    end.

(** [ser] is bound to an open port *)
Definition attached (s : State) : Prop := ser_bound_and_open s = true.

(** the exception came from a library call and the port is still
    attached *)
Definition blamed (w : World) (e : exn) (s : State) : Prop :=
  raised_by_world w e s /\ attached s.

(** the port is attached and the clock has reached [c] *)
Definition live (c : Z) (s : State) : Prop := attached s /\ c <= now s.

(** a steady stream: a line arrives during every library call, each
    call taking 5 s *)
Definition world_busy : World :=
  mkWorld (fun _ => None) (fun _ => 5 * NS_PER_S)
    (fun _ => [x6f; x6b; x0a]) 0 0.

(** the postcondition of what cannot happen *)
Definition never (s : State) : Prop := False.






(** a timestamped record: [[HH:MM:SS]], a space, and a non-empty text
    that stripping would leave as it is *)
Definition is_record (l : str) : Prop :=
  exists stamp body,
    hh_mm_ss stamp /\ body <> [] /\ rstrip body = body
    /\ l = stamp ++ [SPACE] ++ body.

(** what the loop prints: a record or the report of a failed line *)
Definition stream_line (l : str) : Prop :=
  is_record l \/ exists e, l = msg_line_error e.

(** the first [k] banner lines and nothing else were printed *)
Definition heading (k : nat) (s : State) : Prop :=
  (k <= 4)%nat /\ stdout s = firstn k banner.

(** the banner, then lines of the loop only *)
Definition banner_then_stream (out : list str) : Prop :=
  exists body, out = banner ++ body /\ Forall stream_line body.

(** that is what was printed so far *)
Definition streaming (s : State) : Prop := banner_then_stream (stdout s).

(** ... and then the completion message *)
Definition completed (s : State) : Prop :=
  exists body,
    stdout s = banner ++ body ++ [msg_complete] /\ Forall stream_line body.

(** the [try] body was left before its last line *)
Definition unfinished (s : State) : Prop :=
  (exists k, heading k s) \/ streaming s.

(** Everything a run can print: an initial part of the banner; lines of
    the loop, only after the whole banner; and at the end possibly the
    completion message or the line of one [except] clause. *)
Definition script_output (out : list str) : Prop :=
  exists k body ending,
    (k <= 4)%nat
    /\ out = firstn k banner ++ body ++ ending
    /\ Forall stream_line body
    /\ ((k < 4)%nat -> body = [])
    /\ (ending = [] \/ ending = [msg_complete]
        \/ exists e, ending = [handler_message e]).

(** a property of what was printed so far *)
Definition keeps_output (R : list str -> Prop) (s : State) : Prop :=
  R (stdout s).

(** ** Vocabulary for interrupts and for the end of the process *)

(** [verdict P m Q E F]: postconditions for a return, for a raise, which
    sees the exception, and for a run out of fuel *)
Definition verdict {A} (P : State -> Prop) (m : M A)
    (Q : A -> State -> Prop) (E : exn -> State -> Prop)
    (F : State -> Prop) : Prop :=
  forall s, P s ->
    match m s with
    | (s', Ok a) => Q a s'
    | (s', Raise e) => E e s'
    | (s', OutOfFuel) => F s'
    end.

(** the port is attached and interaction [n] has not been made yet *)
Definition before (n : nat) (s : State) : Prop :=
  attached s /\ (tick s <= n)%nat.

(** An exception is on its way with the port attached: either
    interaction [n] has still not been made, or it is the call that
    raised, and what it raised is [KeyboardInterrupt]. *)
Definition struck (n : nat) (e : exn) (s : State) : Prop :=
  attached s
  /\ ((tick s <= n)%nat \/ (e = KeyboardInterrupt /\ tick s = S n)).

(** What the interpreter does when control falls off the end of the
    script: it flushes standard output, and the exit status is 120
    instead of 0 when that flush fails.  An uncaught exception has
    already decided the outcome. *)
Definition interpreter_exit (w : World) (r : State * outcome)
    : State * outcome :=
  match r with
  | (s, Exit 0) =>
    (after_call w OpFlush s,
     match fault w (tick s) with
     | None => Exit 0
     | Some _ => Exit 120
     end)
  | other => other
  end.

(** the script from start to the end of the process *)
Definition process (w : World) (fuel : nat) : State * outcome :=
  interpreter_exit w (monitor w fuel).

(** no [print] of the run raised: each one made wrote its whole line *)
Definition prints_returned (s : State) : Prop :=
  Forall (fun ev => forall line, ev_op ev = OpPrint line ->
                                 ev_raised ev = None) (trace s).

(** a line arrives and Ctrl+C strikes while [readline] reads it *)
Definition world_ctrl_c_reading : World :=
  world_with 7 [x68; x69; x0a] 9 (Some KeyboardInterrupt).

(** Ctrl+C during the first sleep of the loop, and again while the
    interrupt clause prints *)
Definition world_ctrl_c_twice : World :=
  mkWorld (fun n => if Nat.eqb n 9 || Nat.eqb n 10
                    then Some KeyboardInterrupt else None)
    (fun _ => 1000000) (fun _ => []) 0 3600.

(** the port cannot be opened, and Ctrl+C strikes while the clause
    prints its message *)
Definition world_no_port_ctrl_c : World :=
  mkWorld (fun n => if Nat.eqb n 0
                    then Some (SerialException
                                 (text "could not open port /dev/ttyUSB0"))
                    else if Nat.eqb n 1 then Some KeyboardInterrupt
                    else None)
    (fun _ => 1000000) (fun _ => []) 0 3600.

(** the port cannot be opened; the message is buffered, and the flush
    of standard output when the interpreter exits fails *)
Definition world_no_port_flush_fails : World :=
  mkWorld (fun n => if Nat.eqb n 0
                    then Some (SerialException
                                 (text "could not open port /dev/ttyUSB0"))
                    else if Nat.eqb n 2
                    then Some (OtherException
                                 (text "[Errno 28] No space left on device"))
                    else None)
    (fun _ => 1000000) (fun _ => []) 0 3600.

(** ** Reasoning rules *)

Lemma triple_ret {A} (P : State -> Prop) (a : A) Q E :
  (forall s, P s -> Q a s) -> triple P (ret a) Q E.
Proof. intros H s Hs. simpl. auto. Qed.

Lemma triple_raise {A} (P : State -> Prop) e (Q : A -> State -> Prop)
    (E : State -> Prop) :
  (forall s, P s -> E s) -> triple P (raise e) Q E.
Proof. intros H s Hs. simpl. auto. Qed.

Lemma triple_bind {A B} P (m : M A) (k : A -> M B) Q1 Q E :
  triple P m Q1 E ->
  (forall a, triple (Q1 a) (k a) Q E) ->
  triple P (bind m k) Q E.
Proof.
  intros Hm Hk s Hs. unfold bind. specialize (Hm s Hs).
  destruct (m s) as [s1 [a | e | ]]; auto.
  apply (Hk a s1 Hm).
Qed.

Lemma triple_weaken {A} (P P' : State -> Prop) (m : M A)
    (Q Q' : A -> State -> Prop) (E E' : State -> Prop) :
  triple P' m Q' E' ->
  (forall s, P s -> P' s) ->
  (forall a s, Q' a s -> Q a s) ->
  (forall s, E' s -> E s) ->
  triple P m Q E.
Proof.
  intros Hm HP HQ HE s Hs. specialize (Hm s (HP s Hs)).
  destruct (m s) as [s1 [a | e | ]]; auto.
Qed.

Lemma triple_pre {A} (P P' : State -> Prop) (m : M A) Q E :
  triple P' m Q E -> (forall s, P s -> P' s) -> triple P m Q E.
Proof. intros Hm HP s Hs. apply (Hm s (HP s Hs)). Qed.

Lemma triple_ex {A X} (P : X -> State -> Prop) (m : M A) Q E :
  (forall x, triple (P x) m Q E) ->
  triple (fun s => exists x, P x s) m Q E.
Proof. intros H s [x Hs]. apply (H x s Hs). Qed.

Lemma triple_try {A} P (m : M A) (h : exn -> M A) Q E1 E :
  triple P m Q E1 ->
  (forall e, triple E1 (h e) Q E) ->
  (forall s, E1 s -> E s) ->
  triple P (try_except_Exception m h) Q E.
Proof.
  intros Hm Hh HE s Hs. unfold try_except_Exception. specialize (Hm s Hs).
  destruct (m s) as [s1 [a | e | ]]; auto.
  destruct (is_Exception e); auto.
  apply (Hh e s1 Hm).
Qed.

Lemma triple_if {A} (b : bool) P (m1 m2 : M A) Q E :
  triple P m1 Q E -> triple P m2 Q E ->
  triple P (if b then m1 else m2) Q E.
Proof. destruct b; auto. Qed.

Section Rules.

Variable w : World.

Lemma triple_env_call (P : State -> Prop) o (Q : unit -> State -> Prop)
    (E : State -> Prop) :
  (forall s, P s -> fault w (tick s) = None -> Q tt (after_call w o s)) ->
  (forall s e, P s -> fault w (tick s) = Some e -> E (after_call w o s)) ->
  triple P (env_call w o) Q E.
Proof.
  intros HQ HE s Hs. unfold env_call.
  destruct (fault w (tick s)) eqn:Hf; eauto.
Qed.

(** the loop keeps whatever its clock reading and its body keep *)
Lemma triple_loop (I E : State -> Prop) :
  triple I (time_time w) (fun _ => I) E ->
  triple I (loop_body w) (fun _ => I) E ->
  (forall s, I s -> E s) ->
  forall fuel start, triple I (loop w fuel start) (fun _ => I) E.
Proof.
  intros Ht Hb HIE fuel start. induction fuel as [| fuel IH].
  - intros s Hs. simpl. auto.
  - simpl. eapply triple_bind; [exact Ht |].
    intros t. apply triple_if.
    + eapply triple_bind; [exact Hb | intros u; exact IH].
    + apply triple_ret. auto.
Qed.

End Rules.

(** ** Invariant: [close()] only ever meets an open port *)

Section CloseSafety.

Variable w : World.

Lemma bound_open_after_call o s :
  ser_bound_and_open (after_call w o s) = ser_bound_and_open s.
Proof.
  unfold ser_bound_and_open, after_call, deliver. simpl.
  destruct (ser s) as [p |]; [| reflexivity].
  destruct (is_open p) eqn:Hp; simpl; auto.
Qed.

Lemma safe_after_call o s :
  safe_trace s -> sound_op o = true -> safe_trace (after_call w o s).
Proof.
  unfold safe_trace. simpl. intros Hs Ho.
  apply Forall_app. split; [assumption | constructor; simpl; auto].
Qed.

Lemma keeps_after_call b o s :
  keeps b s -> sound_op o = true -> keeps b (after_call w o s).
Proof.
  intros [Hs Hb] Ho. split.
  - now apply safe_after_call.
  - now rewrite bound_open_after_call.
Qed.

Lemma keeps_env_call b o :
  sound_op o = true ->
  triple (keeps b) (env_call w o) (fun _ => keeps b) (keeps b).
Proof.
  intros Ho. apply triple_env_call; intros; now apply keeps_after_call.
Qed.

Lemma keeps_print b line :
  triple (keeps b) (print w line) (fun _ => keeps b) (keeps b).
Proof.
  unfold print. eapply triple_bind; [now apply keeps_env_call |].
  intros ? s Hs. exact Hs.
Qed.

Lemma keeps_time_time b :
  triple (keeps b) (time_time w) (fun _ => keeps b) (keeps b).
Proof.
  unfold time_time. eapply triple_bind; [now apply keeps_env_call |].
  intros ? s Hs. exact Hs.
Qed.

Lemma keeps_time_strftime b :
  triple (keeps b) (time_strftime w) (fun _ => keeps b) (keeps b).
Proof.
  unfold time_strftime. eapply triple_bind; [now apply keeps_env_call |].
  intros ? s Hs. exact Hs.
Qed.

Lemma keeps_time_sleep b :
  triple (keeps b) (time_sleep w) (fun _ => keeps b) (keeps b).
Proof.
  unfold time_sleep. eapply triple_bind; [now apply keeps_env_call |].
  intros ? s Hs. exact Hs.
Qed.

(** with [ser] bound, evaluating the name yields the port *)
Lemma keeps_lookup_ser :
  triple (keeps true) lookup_ser
    (fun p s => keeps true s /\ ser s = Some p /\ is_open p = true)
    (keeps true).
Proof.
  intros s [Hs Hb]. unfold lookup_ser.
  unfold ser_bound_and_open in Hb.
  destruct (ser s) as [p |] eqn:Hp; [| discriminate].
  repeat split; auto. unfold ser_bound_and_open. now rewrite Hp.
Qed.

Ltac port_guard :=
  intros p; destruct (is_open p) eqn:?;
  [| intros ? (_ & _ & ?); congruence].

Lemma keeps_reset :
  triple (keeps true) (ser_reset_input_buffer w)
    (fun _ => keeps true) (keeps true).
Proof.
  unfold ser_reset_input_buffer.
  eapply triple_bind; [apply keeps_lookup_ser |]. port_guard.
  eapply triple_bind.
  - apply triple_pre with (P' := keeps true);
      [now apply keeps_env_call | tauto].
  - intros ? s [Hs _]. split; auto.
Qed.

Lemma keeps_in_waiting :
  triple (keeps true) (ser_in_waiting w)
    (fun _ => keeps true) (keeps true).
Proof.
  unfold ser_in_waiting.
  eapply triple_bind; [apply keeps_lookup_ser |]. port_guard.
  eapply triple_bind.
  - apply triple_pre with (P' := keeps true);
      [now apply keeps_env_call | tauto].
  - intros ? s Hs. exact Hs.
Qed.

Lemma keeps_readline :
  triple (keeps true) (ser_readline w)
    (fun _ => keeps true) (keeps true).
Proof.
  unfold ser_readline.
  eapply triple_bind; [apply keeps_lookup_ser |]. port_guard.
  eapply triple_bind.
  - apply triple_pre with (P' := keeps true);
      [now apply keeps_env_call | tauto].
  - intros ? s [Hs Hb]. unfold ser_bound_and_open in Hb.
    destruct (ser s) as [q |] eqn:Hq; [| discriminate].
    destruct (split_line (in_buffer q)) as [line rest].
    split; [exact Hs |]. unfold ser_bound_and_open. simpl. exact Hb.
Qed.

Lemma keeps_read_and_print :
  triple (keeps true) (read_and_print w)
    (fun _ => keeps true) (keeps true).
Proof.
  unfold read_and_print.
  eapply triple_bind; [apply keeps_readline |]. intros raw.
  destruct (decode_utf8 Replace (map snd raw)) as [decoded |].
  - apply triple_if.
    + eapply triple_bind; [apply keeps_time_strftime |]. intros ts.
      eapply triple_bind; [apply keeps_print |]. intros ?.
      now apply keeps_env_call.
    + apply triple_ret. auto.
  - apply triple_raise. auto.
Qed.

Lemma keeps_loop_body :
  triple (keeps true) (loop_body w) (fun _ => keeps true) (keeps true).
Proof.
  unfold loop_body.
  eapply triple_bind; [apply keeps_in_waiting |]. intros n.
  apply triple_if.
  - unfold guarded_read. eapply triple_try.
    + apply keeps_read_and_print.
    + intros e. apply keeps_print.
    + auto.
  - apply keeps_time_sleep.
Qed.

Lemma keeps_loop fuel start :
  triple (keeps true) (loop w fuel start) (fun _ => keeps true) (keeps true).
Proof.
  apply triple_loop; auto using keeps_time_time, keeps_loop_body.
Qed.

Lemma keeps_Serial_open :
  triple safe_trace (Serial_open w) (fun _ => keeps true) safe_trace.
Proof.
  unfold Serial_open. eapply triple_bind.
  - apply triple_env_call with (Q := fun _ => safe_trace);
      intros; now apply safe_after_call.
  - intros ? s Hs. split; auto.
Qed.

Lemma keeps_close :
  triple (keeps true) (ser_close w) (fun _ => safe_trace) safe_trace.
Proof.
  unfold ser_close.
  eapply triple_bind with
    (Q1 := fun p s => keeps true s /\ ser s = Some p /\ is_open p = true).
  - eapply triple_weaken; [apply keeps_lookup_ser | | |];
      simpl; unfold keeps; intuition.
  - intros p. eapply triple_bind with (Q1 := fun _ => safe_trace).
    + apply triple_env_call.
      * intros s (Hk & _ & Ho) _. apply safe_after_call;
          [apply Hk | now rewrite Ho].
      * intros s e (Hk & _ & Ho) _. apply safe_after_call;
          [apply Hk | now rewrite Ho].
    + intros ? s Hs. exact Hs.
Qed.

Lemma safe_print line :
  triple safe_trace (print w line) (fun _ => safe_trace) safe_trace.
Proof.
  intros s Hs.
  pose proof (keeps_print (ser_bound_and_open s) line s (conj Hs eq_refl)) as H.
  destruct (print w line s) as [s' [[] | e |]]; apply H.
Qed.

Lemma safe_handler e :
  triple safe_trace (handler w e) (fun _ => safe_trace) safe_trace.
Proof.
  destruct e as [m | | m]; simpl; try apply safe_print.
  eapply triple_bind; [apply safe_print |].
  intros ? s Hs. destruct (ser_bound_and_open s) eqn:Hb; [| exact Hs].
  apply keeps_close. now split.
Qed.

Lemma relax {A} (m : M A) :
  triple (keeps true) m (fun _ => keeps true) (keeps true) ->
  triple (keeps true) m (fun _ => keeps true) safe_trace.
Proof.
  intros H s Hs. specialize (H s Hs).
  destruct (m s) as [s' [a | e |]]; auto; apply H.
Qed.

Lemma keeps_startup :
  triple safe_trace (startup w) (fun _ => keeps true) safe_trace.
Proof.
  unfold startup.
  eapply triple_bind; [apply keeps_Serial_open |]. intros ?.
  do 4 (eapply triple_bind; [apply relax, keeps_print |]; intros ?).
  eapply triple_bind; [apply relax, keeps_reset |]. intros ?.
  apply relax, keeps_time_time.
Qed.

Lemma safe_try_body fuel :
  triple safe_trace (try_body w fuel) (fun _ => safe_trace) safe_trace.
Proof.
  unfold try_body.
  eapply triple_bind; [apply keeps_startup |]. intros start.
  eapply triple_bind; [apply relax, keeps_loop |]. intros ?.
  eapply triple_bind; [apply keeps_close |]. intros ?.
  apply safe_print.
Qed.

Lemma safe_monitor_from fuel s :
  safe_trace s -> safe_trace (fst (monitor_from w fuel s)).
Proof.
  intros Hs. unfold monitor_from.
  pose proof (safe_try_body fuel s Hs) as Hb.
  destruct (try_body w fuel s) as [s1 [[] | e |]]; simpl; auto.
  pose proof (safe_handler e s1 Hb) as Hh.
  destruct (handler w e s1) as [s2 [[] | e' |]]; simpl; auto.
Qed.

End CloseSafety.

(** ** Invariant: what is read arrived after the reset *)

Lemma split_line_app buf :
  fst (split_line buf) ++ snd (split_line buf) = buf.
Proof.
  induction buf as [| x rest IH]; simpl; [reflexivity |].
  destruct (Byte.eqb (snd x) x0a); simpl; [reflexivity |].
  destruct (split_line rest) as [line rest']. simpl in *. now rewrite IH.
Qed.

Lemma fresh_after_split r buf :
  fresh_after r buf ->
  fresh_after r (fst (split_line buf)) /\ fresh_after r (snd (split_line buf)).
Proof.
  unfold fresh_after. intros H. rewrite <- (split_line_app buf) in H.
  now apply Forall_app in H.
Qed.

Section Freshness.

Variable w : World.

Lemma untimed_after_call o s :
  untimed s -> timed o = false -> untimed (after_call w o s).
Proof.
  intros [Hl Ht] Ho. split; simpl; [assumption |].
  apply Forall_app. split; [assumption | constructor; simpl; auto].
Qed.

Lemma pristine_after_call o s :
  pristine s -> timed o = false -> is_reset o = false ->
  pristine (after_call w o s).
Proof.
  intros [Hu Hr] Ht Ho. split; [now apply untimed_after_call |].
  simpl. apply Forall_app. split; [assumption | constructor; simpl; auto].
Qed.

Lemma reset_at_log r ev s :
  reset_at r s -> is_reset (ev_op ev) = false -> reset_at r (log ev s).
Proof.
  intros [(pre & post & Ht & Hpre & Hpost) Hl] Ho. split; [| exact Hl].
  exists pre, (post ++ [ev]). simpl. rewrite Ht, <- app_assoc. simpl.
  repeat split; auto. apply Forall_app. split; auto.
Qed.

Lemma flushed_after_call r o s :
  flushed r s -> is_reset o = false -> flushed r (after_call w o s).
Proof.
  intros (Hr & Hlt & Hbuf) Ho. repeat split.
  - destruct Hr as [(pre & post & Ht & Hpre & Hpost) _].
    exists pre, (post ++ [mkEvent (tick s) o (fault w (tick s))]).
    simpl. rewrite Ht, <- app_assoc. simpl.
    repeat split; auto. apply Forall_app. split; auto.
  - apply Hr.
  - simpl. lia.
  - simpl. unfold deliver. destruct (ser s) as [p |]; [| exact I].
    destruct (is_open p); [| exact Hbuf]. simpl.
    apply Forall_app. split; [exact Hbuf |].
    apply Forall_forall. intros x Hx. unfold incoming in Hx.
    apply in_map_iff in Hx.
    destruct Hx as (b & <- & _). simpl. exact Hlt.
Qed.

Lemma flushed_env_call r o :
  is_reset o = false ->
  triple (flushed r) (env_call w o) (fun _ => flushed r) (flushed r).
Proof.
  intros Ho. apply triple_env_call; intros; now apply flushed_after_call.
Qed.

Lemma flushed_lookup_ser r :
  triple (flushed r) lookup_ser (fun _ => flushed r) (flushed r).
Proof.
  intros s Hs. unfold lookup_ser. destruct (ser s) as [p |] eqn:Hp; [exact Hs |].
  destruct Hs as (Hr & Hlt & Hbuf). repeat split.
  - now apply (reset_at_log r _ s).
  - apply Hr.
  - exact Hlt.
  - simpl. now rewrite Hp.
Qed.

Lemma flushed_print r line :
  triple (flushed r) (print w line) (fun _ => flushed r) (flushed r).
Proof.
  unfold print. eapply triple_bind; [now apply flushed_env_call |].
  intros ? s Hs. exact Hs.
Qed.

Lemma flushed_time_time r :
  triple (flushed r) (time_time w) (fun _ => flushed r) (flushed r).
Proof.
  unfold time_time. eapply triple_bind; [now apply flushed_env_call |].
  intros ? s Hs. exact Hs.
Qed.

Lemma flushed_time_strftime r :
  triple (flushed r) (time_strftime w) (fun _ => flushed r) (flushed r).
Proof.
  unfold time_strftime. eapply triple_bind; [now apply flushed_env_call |].
  intros ? s Hs. exact Hs.
Qed.

Lemma flushed_time_sleep r :
  triple (flushed r) (time_sleep w) (fun _ => flushed r) (flushed r).
Proof.
  unfold time_sleep. eapply triple_bind; [now apply flushed_env_call |].
  intros ? s Hs. exact Hs.
Qed.

Lemma flushed_in_waiting r :
  triple (flushed r) (ser_in_waiting w) (fun _ => flushed r) (flushed r).
Proof.
  unfold ser_in_waiting.
  eapply triple_bind; [apply flushed_lookup_ser |]. intros p.
  apply triple_if; [| now apply triple_raise].
  eapply triple_bind; [now apply flushed_env_call |].
  intros ? s Hs. exact Hs.
Qed.

Lemma flushed_readline r :
  triple (flushed r) (ser_readline w) (fun _ => flushed r) (flushed r).
Proof.
  unfold ser_readline.
  eapply triple_bind; [apply flushed_lookup_ser |]. intros p.
  apply triple_if; [| now apply triple_raise].
  eapply triple_bind; [now apply flushed_env_call |].
  intros ? s Hs. destruct (ser s) as [q |] eqn:Hq; [| exact Hs].
  destruct Hs as ([Htr Hlog] & Hlt & Hbuf). rewrite Hq in Hbuf.
  apply fresh_after_split in Hbuf. destruct Hbuf as [Hline Hrest].
  destruct (split_line (in_buffer q)) as [line rest]. simpl in *.
  repeat split; auto. apply Forall_app. now split.
Qed.

Lemma flushed_close r :
  triple (flushed r) (ser_close w) (fun _ => flushed r) (flushed r).
Proof.
  unfold ser_close.
  eapply triple_bind; [apply flushed_lookup_ser |]. intros p.
  eapply triple_bind; [now apply flushed_env_call |].
  intros ? s (Hr & Hlt & _).
  split; [exact Hr | split; [exact Hlt | apply Forall_nil]].
Qed.

Lemma flushed_loop r fuel start :
  triple (flushed r) (loop w fuel start) (fun _ => flushed r) (flushed r).
Proof.
  apply triple_loop; auto using flushed_time_time.
  unfold loop_body.
  eapply triple_bind; [apply flushed_in_waiting |]. intros n.
  apply triple_if; [| apply flushed_time_sleep].
  unfold guarded_read. eapply triple_try; auto using flushed_print.
  unfold read_and_print.
  eapply triple_bind; [apply flushed_readline |]. intros raw.
  destruct (decode_utf8 Replace (map snd raw)) as [decoded |];
    [| now apply triple_raise].
  apply triple_if; [| now apply triple_ret].
  eapply triple_bind; [apply flushed_time_strftime |]. intros ts.
  eapply triple_bind; [apply flushed_print |]. intros ?.
  now apply flushed_env_call.
Qed.

Lemma untimed_env_call o :
  timed o = false ->
  triple untimed (env_call w o) (fun _ => untimed) untimed.
Proof.
  intros Ho. apply triple_env_call; intros; now apply untimed_after_call.
Qed.

Lemma pristine_env_call o :
  timed o = false -> is_reset o = false ->
  triple pristine (env_call w o) (fun _ => pristine) untimed.
Proof.
  intros Ht Ho. apply triple_env_call; intros s.
  - intros Hs _. now apply pristine_after_call.
  - intros e [Hs _] _. now apply untimed_after_call.
Qed.

Lemma untimed_print line :
  triple untimed (print w line) (fun _ => untimed) untimed.
Proof.
  unfold print. eapply triple_bind; [now apply untimed_env_call |].
  intros ? s Hs. exact Hs.
Qed.

Lemma pristine_print line :
  triple pristine (print w line) (fun _ => pristine) untimed.
Proof.
  unfold print. eapply triple_bind; [now apply pristine_env_call |].
  intros ? s Hs. exact Hs.
Qed.

Lemma pristine_Serial_open :
  triple pristine (Serial_open w) (fun _ => pristine) untimed.
Proof.
  unfold Serial_open. eapply triple_bind; [now apply pristine_env_call |].
  intros ? s Hs. exact Hs.
Qed.

Lemma untimed_close :
  triple untimed (ser_close w) (fun _ => untimed) untimed.
Proof.
  unfold ser_close. eapply triple_bind with (Q1 := fun _ => untimed).
  - intros s [Hl Ht]. unfold lookup_ser.
    destruct (ser s); [now split |]. split; [exact Hl |]. simpl.
    apply Forall_app. split; [exact Ht | now constructor].
  - intros p. eapply triple_bind; [now apply untimed_env_call |].
    intros ? s Hs. exact Hs.
Qed.

(** the reset starts the second phase *)
Lemma pristine_reset :
  triple pristine (ser_reset_input_buffer w)
    (fun _ s => exists r, flushed r s) untimed.
Proof.
  intros s [[Hl Ht] Hr]. unfold ser_reset_input_buffer, bind, lookup_ser.
  destruct (ser s) as [p |] eqn:Hp.
  - destruct (is_open p) eqn:Ho; [| now split].
    unfold env_call. destruct (fault w (tick s)) eqn:Hf.
    + now apply untimed_after_call.
    + exists (tick s). split; [split |]; simpl.
      * exists (trace s), []. rewrite Hf. repeat split; auto.
        apply Forall_forall. intros ev Hev. split.
        -- now apply (proj1 (Forall_forall _ _) Ht).
        -- now apply (proj1 (Forall_forall _ _) Hr).
      * rewrite Hl. apply Forall_nil.
      * split; [lia | apply Forall_nil].
  - split; [exact Hl |]. simpl.
    apply Forall_app. split; [exact Ht | now constructor].
Qed.

Lemma flushed_discipline r s : flushed r s -> reset_discipline s.
Proof. intros [Hr _]. right. now exists r. Qed.

Lemma to_phase {A} P (m : M A) Q :
  triple P m Q untimed -> triple P m Q phase.
Proof.
  intros H. eapply triple_weaken; [exact H | | |]; auto.
  intros s Hs. now left.
Qed.

Lemma phase_startup :
  triple pristine (startup w) (fun _ s => exists r, flushed r s) phase.
Proof.
  unfold startup.
  eapply triple_bind; [eapply to_phase; apply pristine_Serial_open |]. intros ?.
  do 4 (eapply triple_bind; [eapply to_phase; apply pristine_print |]; intros ?).
  eapply triple_bind; [eapply to_phase; apply pristine_reset |]. intros ?.
  apply triple_ex. intros r.
  eapply triple_weaken; [apply (flushed_time_time r) | | |]; simpl.
  - auto.
  - intros t s Hs. now exists r.
  - intros s Hs. right. now exists r.
Qed.

Lemma phase_try_body fuel :
  triple pristine (try_body w fuel) (fun _ => phase) phase.
Proof.
  unfold try_body.
  eapply triple_bind; [apply phase_startup |]. intros start.
  apply triple_ex. intros r.
  apply triple_weaken with (P' := flushed r) (Q' := fun _ => flushed r)
    (E' := flushed r); auto; try (intros; right; now exists r).
  eapply triple_bind; [apply flushed_loop |]. intros ?.
  eapply triple_bind; [apply flushed_close |]. intros ?.
  apply flushed_print.
Qed.

Lemma phase_handler e :
  triple phase (handler w e) (fun _ => phase) phase.
Proof.
  intros s [Hs | [r Hs]].
  - assert (H : triple untimed (handler w e) (fun _ => untimed) untimed).
    { destruct e; simpl; try apply untimed_print.
      eapply triple_bind; [apply untimed_print |].
      intros ? s1 Hs1. destruct (ser_bound_and_open s1); [| exact Hs1].
      now apply untimed_close. }
    specialize (H s Hs).
    destruct (handler w e s) as [s' [a | e' |]]; now left.
  - assert (H : triple (flushed r) (handler w e)
                  (fun _ => flushed r) (flushed r)).
    { destruct e; simpl; try apply flushed_print.
      eapply triple_bind; [apply flushed_print |].
      intros ? s1 Hs1. destruct (ser_bound_and_open s1); [| exact Hs1].
      now apply flushed_close. }
    specialize (H s Hs).
    destruct (handler w e s) as [s' [a | e' |]]; right; now exists r.
Qed.

Lemma discipline_monitor fuel :
  reset_discipline (fst (monitor w fuel)).
Proof.
  assert (H0 : pristine (init_state w)).
  { repeat split; simpl; auto. }
  assert (Hd : forall s, phase s -> reset_discipline s).
  { intros s [H | [r H]]; [now left | now apply (flushed_discipline r)]. }
  unfold monitor, monitor_from.
  pose proof (phase_try_body fuel _ H0) as Hb.
  destruct (try_body w fuel (init_state w)) as [s1 [[] | e |]]; simpl; auto.
  pose proof (phase_handler e s1 Hb) as Hh.
  destruct (handler w e s1) as [s2 [[] | e' |]]; simpl; auto.
Qed.

End Freshness.

(** ** Decoding never fails under ['replace'] *)

Lemma apply_handler_replace cs :
  apply_handler Replace cs = Some (map repair cs).
Proof.
  induction cs as [| [cp | n] cs IH]; simpl; [reflexivity | |];
    now rewrite IH.
Qed.

Lemma decode_replace bs :
  decode_utf8 Replace bs = Some (map repair (utf8_scan bs)).
Proof. apply apply_handler_replace. Qed.

(** ** Shape of the timestamp *)


Lemma second_of_day_range offset t : 0 <= second_of_day offset t < 86400.
Proof. unfold second_of_day. apply Z.mod_pos_bound. lia. Qed.

Lemma clock_text_shape sod : 0 <= sod < 86400 -> hh_mm_ss (clock_text sod).
Proof.
  intros Hs. exists (sod / 3600), (sod / 60 mod 60), (sod mod 60).
  repeat split; try reflexivity.
  - apply Z.div_pos; lia.
  - apply Z.div_lt_upper_bound; lia.
  - apply Z.mod_pos_bound; lia.
  - apply Z.mod_pos_bound; lia.
  - apply Z.mod_pos_bound; lia.
  - apply Z.mod_pos_bound; lia.
Qed.

(** ** Executing the operations *)

Arguments decode_utf8 : simpl never.
Arguments rstrip : simpl never.
Arguments utf8_scan : simpl never.
Arguments clock_text : simpl never.
Arguments second_of_day : simpl never.
Arguments split_line : simpl never.

Section Runs.

Variable w : World.

Lemma deliver_open s p :
  ser s = Some p -> is_open p = true ->
  deliver w s = Some (mkSerial true (in_buffer p ++ incoming w s)).
Proof. intros Hp Ho. unfold deliver. now rewrite Hp, Ho. Qed.

Lemma bind_ok {A B} (m : M A) (k : A -> M B) s s1 a :
  m s = (s1, Ok a) -> bind m k s = k a s1.
Proof. intros H. unfold bind. now rewrite H. Qed.

Lemma bind_raise {A B} (m : M A) (k : A -> M B) s s1 e :
  m s = (s1, Raise e) -> bind m k s = (s1, Raise e).
Proof. intros H. unfold bind. now rewrite H. Qed.

Lemma env_call_returns o s :
  fault w (tick s) = None ->
  env_call w o s
  = (mkState (S (tick s)) (now s + latency w (tick s)) (deliver w s)
       (stdout s) (rx_log s) (trace s ++ [mkEvent (tick s) o None]), Ok tt).
Proof. intros F. unfold env_call, after_call. now rewrite F. Qed.

Lemma env_call_raises o s e :
  fault w (tick s) = Some e ->
  env_call w o s
  = (mkState (S (tick s)) (now s + latency w (tick s)) (deliver w s)
       (stdout s) (rx_log s) (trace s ++ [mkEvent (tick s) o (Some e)]),
     Raise e).
Proof. intros F. unfold env_call, after_call. now rewrite F. Qed.

Lemma print_returns line s :
  fault w (tick s) = None ->
  print w line s
  = (mkState (S (tick s)) (now s + latency w (tick s)) (deliver w s)
       (stdout s ++ [line]) (rx_log s)
       (trace s ++ [mkEvent (tick s) (OpPrint line) None]), Ok tt).
Proof.
  intros F. unfold print. now rewrite (bind_ok _ _ _ _ _ (env_call_returns _ s F)).
Qed.

Lemma print_raises line s e :
  fault w (tick s) = Some e ->
  print w line s
  = (mkState (S (tick s)) (now s + latency w (tick s)) (deliver w s)
       (stdout s) (rx_log s)
       (trace s ++ [mkEvent (tick s) (OpPrint line) (Some e)]), Raise e).
Proof.
  intros F. unfold print.
  now rewrite (bind_raise _ _ _ _ _ (env_call_raises _ s e F)).
Qed.

Lemma time_time_returns s :
  fault w (tick s) = None ->
  time_time w s
  = (mkState (S (tick s)) (now s + latency w (tick s)) (deliver w s)
       (stdout s) (rx_log s) (trace s ++ [mkEvent (tick s) OpTime None]),
     Ok (now s + latency w (tick s))).
Proof.
  intros F. unfold time_time.
  now rewrite (bind_ok _ _ _ _ _ (env_call_returns _ s F)).
Qed.

Lemma time_strftime_returns s :
  fault w (tick s) = None ->
  time_strftime w s
  = (mkState (S (tick s)) (now s + latency w (tick s)) (deliver w s)
       (stdout s) (rx_log s) (trace s ++ [mkEvent (tick s) OpStrftime None]),
     Ok (clock_text (second_of_day (utc_offset w)
                       (now s + latency w (tick s))))).
Proof.
  intros F. unfold time_strftime.
  now rewrite (bind_ok _ _ _ _ _ (env_call_returns _ s F)).
Qed.

Lemma time_sleep_returns s :
  fault w (tick s) = None ->
  time_sleep w s
  = (mkState (S (tick s)) (now s + latency w (tick s) + SLEEP_NS)
       (deliver w s) (stdout s) (rx_log s)
       (trace s ++ [mkEvent (tick s) OpSleep None]), Ok tt).
Proof.
  intros F. unfold time_sleep.
  now rewrite (bind_ok _ _ _ _ _ (env_call_returns _ s F)).
Qed.

Lemma ser_in_waiting_returns s p :
  ser s = Some p -> is_open p = true -> fault w (tick s) = None ->
  ser_in_waiting w s
  = (mkState (S (tick s)) (now s + latency w (tick s))
       (Some (mkSerial true (in_buffer p ++ incoming w s)))
       (stdout s) (rx_log s) (trace s ++ [mkEvent (tick s) OpInWaiting None]),
     Ok (List.length (in_buffer p ++ incoming w s))).
Proof.
  intros Hp Ho F. unfold ser_in_waiting, lookup_ser, bind at 1.
  rewrite Hp, Ho.
  rewrite (bind_ok _ _ _ _ _ (env_call_returns _ s F)).
  now rewrite (deliver_open s p Hp Ho).
Qed.

Lemma ser_readline_returns s p :
  ser s = Some p -> is_open p = true -> fault w (tick s) = None ->
  ser_readline w s
  = (mkState (S (tick s)) (now s + latency w (tick s))
       (Some (mkSerial true (snd (split_line (in_buffer p ++ incoming w s)))))
       (stdout s)
       (rx_log s ++ fst (split_line (in_buffer p ++ incoming w s)))
       (trace s ++ [mkEvent (tick s) OpReadline None]),
     Ok (fst (split_line (in_buffer p ++ incoming w s)))).
Proof.
  intros Hp Ho F. unfold ser_readline, lookup_ser, bind at 1.
  rewrite Hp, Ho.
  rewrite (bind_ok _ _ _ _ _ (env_call_returns _ s F)).
  rewrite (deliver_open s p Hp Ho). cbn [ser in_buffer is_open].
  now destruct (split_line (in_buffer p ++ incoming w s)).
Qed.

Lemma ser_readline_raises s p e :
  ser s = Some p -> is_open p = true -> fault w (tick s) = Some e ->
  ser_readline w s
  = (mkState (S (tick s)) (now s + latency w (tick s))
       (Some (mkSerial true (in_buffer p ++ incoming w s)))
       (stdout s) (rx_log s)
       (trace s ++ [mkEvent (tick s) OpReadline (Some e)]), Raise e).
Proof.
  intros Hp Ho F. unfold ser_readline, lookup_ser, bind at 1.
  rewrite Hp, Ho.
  rewrite (bind_raise _ _ _ _ _ (env_call_raises _ s e F)).
  now rewrite (deliver_open s p Hp Ho).
Qed.

Lemma ser_close_returns s p :
  ser s = Some p -> fault w (tick s) = None ->
  ser_close w s
  = (mkState (S (tick s)) (now s + latency w (tick s))
       (Some (mkSerial false []))
       (stdout s) (rx_log s)
       (trace s ++ [mkEvent (tick s) (OpClose (is_open p)) None]), Ok tt).
Proof.
  intros Hp F. unfold ser_close, lookup_ser, bind at 1. rewrite Hp.
  now rewrite (bind_ok _ _ _ _ _ (env_call_returns _ s F)).
Qed.

(** lines 27-31 when no call raises *)
Lemma read_and_print_returns s p :
  ser s = Some p -> is_open p = true ->
  fault w (tick s) = None ->
  fault w (S (tick s)) = None ->
  fault w (S (S (tick s))) = None ->
  fault w (S (S (S (tick s)))) = None ->
  exists s',
    read_and_print w s = (s', Ok tt)
    /\ stdout s'
       = stdout s
         ++ (let line := rstrip (map repair (utf8_scan (map snd
                 (fst (split_line (in_buffer p ++ incoming w s)))))) in
             if truthy line
             then [clock_text (second_of_day (utc_offset w)
                     (now s + latency w (tick s) + latency w (S (tick s))))
                   ++ [SPACE] ++ line]
             else [])
    /\ ser_bound_and_open s' = true
    /\ rx_log s' = rx_log s ++ fst (split_line (in_buffer p ++ incoming w s)).
Proof.
  intros Hp Ho F0 F1 F2 F3. unfold read_and_print.
  rewrite (bind_ok _ _ _ _ _ (ser_readline_returns s p Hp Ho F0)).
  rewrite decode_replace. cbv zeta.
  destruct (truthy _) eqn:Hl.
  - erewrite bind_ok by (apply time_strftime_returns; exact F1).
    erewrite bind_ok by (apply print_returns; exact F2).
    unfold sys_stdout_flush. rewrite env_call_returns by exact F3.
    eexists. split; [reflexivity |]. cbn [tick now ser stdout rx_log trace].
    repeat split.
  - eexists. split; [reflexivity |]. cbn [tick now ser stdout rx_log trace].
    rewrite app_nil_r. repeat split.
Qed.

End Runs.

(** ** Lines: reading, decoding, printing *)

Lemma calm_S w n k :
  calm w n (S k) -> fault w n = None /\ calm w (S n) k.
Proof.
  intros H. split.
  - rewrite <- (H 0%nat) by lia. f_equal. lia.
  - intros i Hi. rewrite <- (H (S i)) by lia. f_equal. lia.
Qed.

Ltac calm_split H :=
  repeat match type of H with
         | calm _ _ (S _) =>
           let F := fresh "F" in
           apply calm_S in H; destruct H as [F H]
         end.

Lemma rstrip_keeps c s :
  is_space c = false -> In c s -> In c (rstrip s).
Proof.
  intros Hc. induction s as [| d s IH]; simpl; [auto |].
  intros [-> | Hin].
  - unfold rstrip; fold rstrip. destruct (rstrip s); [rewrite Hc |]; now left.
  - specialize (IH Hin). unfold rstrip; fold rstrip.
    destruct (rstrip s); [contradiction | now right].
Qed.

Lemma strict_rejects cs :
  apply_handler Strict cs = None -> Exists malformed cs.
Proof.
  induction cs as [| [cp | n] cs IH]; simpl.
  - discriminate.
  - destruct (apply_handler Strict cs); [discriminate |].
    intros _. right. now apply IH.
  - intros _. now left.
Qed.

Lemma repair_malformed cs :
  Exists malformed cs -> In REPLACEMENT (map repair cs).
Proof.
  induction 1 as [[cp | n] cs H | c cs H IH]; simpl; auto.
  contradiction.
Qed.

Section Lines.

Variable w : World.

Lemma guarded_read_ok s s' :
  read_and_print w s = (s', Ok tt) -> guarded_read w s = (s', Ok tt).
Proof. intros H. unfold guarded_read, try_except_Exception. now rewrite H. Qed.

(** lines 26-33: an [Exception] raised by the read is reported and the
    iteration ends normally *)
Lemma guarded_read_catches s s1 e :
  read_and_print w s = (s1, Raise e) ->
  is_Exception e = true ->
  fault w (tick s1) = None ->
  guarded_read w s
  = (mkState (S (tick s1)) (now s1 + latency w (tick s1)) (deliver w s1)
       (stdout s1 ++ [msg_line_error e]) (rx_log s1)
       (trace s1 ++ [mkEvent (tick s1) (OpPrint (msg_line_error e)) None]),
     Ok tt).
Proof.
  intros H He F. unfold guarded_read, try_except_Exception.
  rewrite H, He. now apply print_returns.
Qed.

(** lines 25-33 with bytes waiting and no call raising *)
Lemma loop_body_line s p :
  ser s = Some p -> is_open p = true -> calm w (tick s) 5 ->
  in_buffer p ++ incoming w s <> [] ->
  exists s',
    loop_body w s = (s', Ok tt)
    /\ stdout s'
       = stdout s
         ++ (let line :=
               rstrip (map repair (utf8_scan (map snd (fst (split_line
                 ((in_buffer p ++ incoming w s)
                  ++ map (pair (S (tick s))) (arrive w (S (tick s))))))))) in
             if truthy line
             then [clock_text (second_of_day (utc_offset w)
                     (now s + latency w (tick s) + latency w (S (tick s))
                      + latency w (S (S (tick s)))))
                   ++ [SPACE] ++ line]
             else [])
    /\ ser_bound_and_open s' = true.
Proof.
  intros Hp Ho Hc Hne. calm_split Hc. unfold loop_body.
  erewrite bind_ok by (now apply ser_in_waiting_returns; eauto).
  destruct (in_buffer p ++ incoming w s) as [| x l] eqn:Hbuf;
    [congruence |].
  change (0 <? List.length (x :: l))%nat with true. cbv iota.
  edestruct (read_and_print_returns w) as (s' & Hrun & Hout & Hopen & _);
    [ | | | | | | exists s'; split; [apply guarded_read_ok, Hrun |] ];
    cbn [tick now ser stdout rx_log trace is_open]; eauto.
Qed.

End Lines.

(** ** The [except] clauses *)

Section Handlers.

Variable w : World.

(** lines 42-45 when neither the [print] nor the [close()] raises *)
Lemma handler_interrupt s :
  calm w (tick s) 2 ->
  exists s2,
    handler w KeyboardInterrupt s = (s2, Ok tt)
    /\ stdout s2 = stdout s ++ [msg_stopped]
    /\ ser_bound_and_open s2 = false
    /\ trace s2
       = trace s ++ mkEvent (tick s) (OpPrint msg_stopped) None
           :: (if ser_bound_and_open s
               then [mkEvent (S (tick s)) (OpClose true) None]
               else []).
Proof.
  intros Hc. calm_split Hc. cbn [handler].
  erewrite bind_ok by (now apply print_returns).
  unfold ser_bound_and_open at 1. cbn [tick now ser stdout rx_log trace].
  unfold deliver, ser_bound_and_open.
  destruct (ser s) as [p |] eqn:Hp.
  - destruct (is_open p) eqn:Ho.
    + erewrite ser_close_returns; [| reflexivity | exact F0].
      eexists. split; [reflexivity |].
      cbn [tick now ser stdout rx_log trace is_open].
      rewrite <- app_assoc. repeat split.
    + rewrite Ho. eexists. split; [reflexivity |].
      cbn [tick now ser stdout rx_log trace]. rewrite Ho. repeat split.
  - eexists. split; [reflexivity |].
    cbn [tick now ser stdout rx_log trace]. repeat split.
Qed.

(** every clause prints its one line and ends normally *)
Lemma handler_returns e s :
  calm w (tick s) 2 ->
  exists s2,
    handler w e s = (s2, Ok tt)
    /\ stdout s2 = stdout s ++ [handler_message e].
Proof.
  intros Hc. destruct e as [m | | m].
  - calm_split Hc. cbn [handler]. rewrite print_returns by exact F.
    eexists. split; reflexivity.
  - destruct (handler_interrupt s Hc) as (s2 & H & Hout & _).
    exists s2. now split.
  - calm_split Hc. cbn [handler]. rewrite print_returns by exact F.
    eexists. split; reflexivity.
Qed.

Lemma monitor_via_try_body fuel s1 r :
  try_body w fuel (init_state w) = (s1, r) ->
  monitor w fuel
  = match r with
    | Raise e => finish (handler w e s1)
    | _ => finish (s1, r)
    end.
Proof.
  intros H. unfold monitor, monitor_from. rewrite H. now destruct r.
Qed.

Lemma loop_S fuel start s :
  loop w (S fuel) start s
  = bind (time_time w)
      (fun t => if t - start <? RUN_NS
                then bind (loop_body w) (fun _ => loop w fuel start)
                else ret tt) s.
Proof. reflexivity. Qed.

End Handlers.

(** ** The idle loop *)

Section Idle.

Variable w : World.

Hypothesis Hquiet : never_raises w.
Hypothesis Hsilent : silent w.
Hypothesis Hmono : clock_monotone w.
Hypothesis Hround : round_within_timeout w.

Lemma Serial_open_returns s :
  ser s = None ->
  Serial_open w s
  = (mkState (S (tick s)) (now s + latency w (tick s))
       (Some (mkSerial true [])) (stdout s) (rx_log s)
       (trace s ++ [mkEvent (tick s) OpOpen None]), Ok tt).
Proof.
  intros Hs. unfold Serial_open.
  now rewrite (bind_ok _ _ _ _ _ (env_call_returns w _ s (Hquiet _))).
Qed.

Lemma deliver_silent s :
  ser s = Some (mkSerial true []) -> deliver w s = Some (mkSerial true []).
Proof.
  intros Hs. rewrite (deliver_open w s _ Hs eq_refl).
  unfold incoming. now rewrite Hsilent.
Qed.

Lemma ser_reset_returns s :
  ser s = Some (mkSerial true []) ->
  ser_reset_input_buffer w s
  = (mkState (S (tick s)) (now s + latency w (tick s))
       (Some (mkSerial true [])) (stdout s) (rx_log s)
       (trace s ++ [mkEvent (tick s) OpReset None]), Ok tt).
Proof.
  intros Hs. unfold ser_reset_input_buffer, lookup_ser, bind at 1.
  rewrite Hs. cbn [is_open].
  now rewrite (bind_ok _ _ _ _ _ (env_call_returns w _ s (Hquiet _))).
Qed.

(** lines 25-35 on an empty buffer: ask, then sleep *)
Lemma loop_body_idle s :
  ser s = Some (mkSerial true []) ->
  exists s',
    loop_body w s = (s', Ok tt)
    /\ ser s' = Some (mkSerial true [])
    /\ tick s' = S (S (tick s))
    /\ now s' = now s + latency w (tick s) + latency w (S (tick s)) + SLEEP_NS
    /\ stdout s' = stdout s.
Proof.
  intros Hs. unfold loop_body.
  erewrite bind_ok by (now apply ser_in_waiting_returns; eauto).
  unfold incoming. rewrite Hsilent. cbn [in_buffer app map List.length Nat.ltb Nat.leb].
  rewrite time_sleep_returns by apply Hquiet.
  eexists. split; [reflexivity |].
  cbn [tick now ser stdout rx_log trace].
  rewrite deliver_silent by reflexivity. repeat split.
Qed.

(** the loop ends at the first clock reading at or past the deadline *)
Lemma loop_idle_terminates start fuel :
  forall s,
    ser s = Some (mkSerial true []) ->
    now s + latency w (tick s) - start < RUN_NS + TIMEOUT_NS ->
    RUN_NS - (now s - start) <= Z.of_nat fuel * SLEEP_NS ->
    exists s',
      loop w (S fuel) start s = (s', Ok tt)
      /\ RUN_NS <= now s' - start < RUN_NS + TIMEOUT_NS
      /\ ser s' = Some (mkSerial true [])
      /\ stdout s' = stdout s.
Proof.
  induction fuel as [| fuel IH]; intros s Hs Hnext Hfuel.
  - rewrite loop_S. erewrite bind_ok by (apply time_time_returns, Hquiet).
    pose proof (Hmono (tick s)) as H0.
    destruct (Z.ltb_spec (now s + latency w (tick s) - start) RUN_NS) as [Hlt | Hge];
      [unfold SLEEP_NS in Hfuel; lia |].
    eexists. split; [reflexivity |]. cbn [tick now ser stdout rx_log trace].
    rewrite (deliver_silent s Hs). repeat split; lia.
  - rewrite loop_S. erewrite bind_ok by (apply time_time_returns, Hquiet).
    pose proof (Hmono (tick s)) as H0.
    destruct (Z.ltb_spec (now s + latency w (tick s) - start) RUN_NS) as [Hlt | Hge].
    + edestruct loop_body_idle as (s1 & Hrun & Hser & Htick & Hnow & Hout);
        [| erewrite bind_ok by exact Hrun].
      { cbn [ser]. now apply deliver_silent. }
      cbn [tick now ser stdout rx_log trace] in Htick, Hnow, Hout.
      pose proof (Hmono (S (tick s))) as H1.
      pose proof (Hmono (S (S (tick s)))) as H2.
      pose proof (Hround (S (tick s))) as H3.
      destruct (IH s1 Hser) as (s' & Hloop & Hbound & Hser' & Hout').
      * rewrite Htick, Hnow. lia.
      * rewrite Hnow. unfold SLEEP_NS in *. lia.
      * exists s'. rewrite Hout' , Hout. auto.
    + eexists. split; [reflexivity |]. cbn [tick now ser stdout rx_log trace].
      rewrite (deliver_silent s Hs). repeat split; lia.
Qed.

(** lines 12-23 in a quiet world *)
Lemma startup_quiet :
  exists s,
    startup w (init_state w) = (s, Ok (now s))
    /\ ser s = Some (mkSerial true [])
    /\ stdout s = banner
    /\ tick s = 7%nat.
Proof.
  unfold startup.
  erewrite bind_ok by (now apply Serial_open_returns).
  do 4 (erewrite bind_ok by (apply print_returns, Hquiet);
        cbn [tick now ser stdout rx_log trace];
        rewrite deliver_silent by reflexivity).
  erewrite bind_ok by (now apply ser_reset_returns).
  rewrite time_time_returns by apply Hquiet.
  match goal with |- exists s, (?s0, _) = _ /\ _ => exists s0 end.
  split; [reflexivity |]. cbn [tick now ser stdout rx_log trace].
  rewrite deliver_silent by reflexivity. repeat split.
Qed.

End Idle.

(** ** Properties of the script *)

Lemma truthy_nonempty (l : str) : truthy l = true <-> l <> [].
Proof. destruct l; simpl; split; congruence. Qed.

(** *** Closing the port *)

Lemma triple_any {A} (m : M A) :
  triple (fun _ => True) m (fun _ _ => True) (fun _ => True).
Proof. intros s _. now destruct (m s) as [s' [a | e |]]. Qed.

(** When the [try] body runs to its end the port is closed. *)
Lemma normal_completion_closes (w : World) (fuel : nat) (s s' : State) :
  try_body w fuel s = (s', Ok tt) -> ser_bound_and_open s' = false.
Proof.
  assert (H : triple (fun _ => True) (try_body w fuel)
                (fun _ s => ser_bound_and_open s = false) (fun _ => True)).
  { unfold try_body.
    eapply triple_bind; [apply triple_any |]. intros start.
    eapply triple_bind; [apply triple_any |]. intros ?.
    eapply triple_bind with (Q1 := fun _ s => ser_bound_and_open s = false).
    - unfold ser_close.
      eapply triple_bind; [apply triple_any |]. intros p.
      eapply triple_bind; [apply triple_any |]. intros ? s1 _. reflexivity.
    - intros ?. unfold print.
      eapply triple_bind with (Q1 := fun _ s => ser_bound_and_open s = false).
      + apply triple_env_call; intros s1; [| auto].
        intros Hs1 _. now rewrite bound_open_after_call.
      + intros ? s1 Hs1. exact Hs1. }
  intros Hrun. specialize (H s I). now rewrite Hrun in H.
Qed.

(** An [Exception] that escapes the loop reaches a clause that prints
    and does nothing else: the port stays open. *)
Lemma exception_in_loop_leaves_port_open
    (w : World) (fuel : nat) (start : Z) (s s1 : State) (e : exn) :
  startup w (init_state w) = (s, Ok start) ->
  loop w fuel start s = (s1, Raise e) ->
  is_Exception e = true ->
  fault w (tick s1) = None ->
  exists s2,
    monitor w fuel = (s2, Exit 0)
    /\ ser_bound_and_open s2 = true
    /\ trace s2
       = trace s1 ++ [mkEvent (tick s1) (OpPrint (handler_message e)) None].
Proof.
  intros Hstart Hloop He F.
  assert (Hopen : ser_bound_and_open s1 = true).
  { assert (H0 : safe_trace (init_state w)) by apply Forall_nil.
    pose proof (keeps_startup w _ H0) as Hs. rewrite Hstart in Hs.
    pose proof (keeps_loop w fuel start s Hs) as Hl. rewrite Hloop in Hl.
    apply Hl. }
  assert (Hbody : try_body w fuel (init_state w) = (s1, Raise e)).
  { unfold try_body. rewrite (bind_ok _ _ _ _ _ Hstart).
    now rewrite (bind_raise _ _ _ _ _ Hloop). }
  rewrite (monitor_via_try_body w fuel s1 _ Hbody).
  pose proof (bound_open_after_call w (OpPrint (handler_message e)) s1) as Hk.
  destruct e as [m | | m]; try discriminate; cbn [handler];
    rewrite print_returns by exact F; eexists;
    (split; [reflexivity |]); (split; [| reflexivity]);
    rewrite <- Hopen, <- Hk; reflexivity.
Qed.

(** C1 -- every exit path closes the port it opened.  The code does so
    on normal completion and on interrupt only.  Here the device is
    unplugged after a successful open: the first availability query of
    the loop raises an [OSError], the catch-all clause prints its
    message, and the script ends with exit status 0 while the port is
    still open and [close()] was never invoked. *)
Theorem C1_unexpected_error_leaves_port_open (fuel : nat) :
  snd (monitor world_unplugged (S fuel)) = Exit 0
  /\ ser (fst (monitor world_unplugged (S fuel))) = Some (mkSerial true [])
  /\ stdout (fst (monitor world_unplugged (S fuel)))
     = banner ++ [text "Unexpected error: [Errno 5] Input/output error"]
  /\ Forall (fun ev => forall b, ev_op ev <> OpClose b)
       (trace (fst (monitor world_unplugged (S fuel)))).
Proof.
  split; [vm_compute; reflexivity |].
  split; [vm_compute; reflexivity |].
  split; [vm_compute; reflexivity |].
  match goal with
  | |- Forall _ ?t => let t' := eval vm_compute in t in change t with t'
  end.
  repeat constructor; intros b; discriminate.
Qed.

(** *** Lines *)

(** C2 -- for every line read while bytes are available: if it is
    non-empty once decoded and stripped of trailing white space, exactly
    one record is printed, the timestamp [[HH:MM:SS]] of the local time
    in whole seconds, a space and the stripped line; if it is empty,
    nothing is printed.  Stated for one round of the loop (lines 25-35)
    begun with the port open and bytes waiting, none of its five library
    calls raising. *)
Theorem C2_one_record_per_nonempty_line (w : World) (s : State) (p : Serial) :
  ser s = Some p -> is_open p = true ->
  calm w (tick s) 5 ->
  in_buffer p ++ incoming w s <> [] ->
  exists s' decoded,
    decode_utf8 Replace (next_line w s p) = Some decoded
    /\ loop_body w s = (s', Ok tt)
    /\ hh_mm_ss (stamp_at w s)
    /\ (rstrip decoded <> [] ->
        stdout s' = stdout s ++ [stamp_at w s ++ [SPACE] ++ rstrip decoded])
    /\ (rstrip decoded = [] -> stdout s' = stdout s).
Proof.
  intros Hp Ho Hc Hne.
  destruct (loop_body_line w s p Hp Ho Hc Hne) as (s' & Hrun & Hout & _).
  exists s', (map repair (utf8_scan (next_line w s p))).
  split; [apply decode_replace |]. split; [exact Hrun |].
  split; [apply clock_text_shape, second_of_day_range |].
  fold (next_line w s p) in Hout. fold (stamp_at w s) in Hout.
  cbv zeta in Hout. split; intros Hline.
  - apply truthy_nonempty in Hline. now rewrite Hline in Hout.
  - rewrite Hline in Hout. simpl in Hout. now rewrite app_nil_r in Hout.
Qed.

(** the device sends [hello], carriage return, newline: one record *)
Lemma C2_witness :
  exists s',
    loop_body world_hello (first_poll world_hello) = (s', Ok tt)
    /\ stdout s' = banner ++ [text "[01:00:00] hello"].
Proof.
  destruct (C2_one_record_per_nonempty_line world_hello
              (first_poll world_hello)
              (mkSerial true
                 (map (pair 7%nat) [x68; x65; x6c; x6c; x6f; x0d; x0a])))
    as (s' & decoded & Hdec & Hrun & _ & Hyes & _).
  - reflexivity.
  - reflexivity.
  - intros i Hi. reflexivity.
  - vm_compute. discriminate.
  - exists s'. split; [exact Hrun |].
    vm_compute in Hdec. injection Hdec as <-.
    rewrite Hyes by (vm_compute; discriminate).
    vm_compute. reflexivity.
Defined.

(** C4 -- a line that is not valid UTF-8 raises no decoding error: it
    is decoded with U+FFFD in place of each malformed stretch, the result
    still holds a U+FFFD after stripping, so exactly one record is
    printed, and the round ends normally with the port open, so the loop
    goes on. *)
Theorem C4_invalid_utf8_is_replaced (w : World) (s : State) (p : Serial) :
  ser s = Some p -> is_open p = true ->
  calm w (tick s) 5 ->
  in_buffer p ++ incoming w s <> [] ->
  decode_utf8 Strict (next_line w s p) = None ->
  exists s' decoded,
    decode_utf8 Replace (next_line w s p) = Some decoded
    /\ decoded = map repair (utf8_scan (next_line w s p))
    /\ In REPLACEMENT (rstrip decoded)
    /\ loop_body w s = (s', Ok tt)
    /\ stdout s' = stdout s ++ [stamp_at w s ++ [SPACE] ++ rstrip decoded]
    /\ ser_bound_and_open s' = true.
Proof.
  intros Hp Ho Hc Hne Hbad.
  destruct (loop_body_line w s p Hp Ho Hc Hne) as (s' & Hrun & Hout & Hopen).
  exists s', (map repair (utf8_scan (next_line w s p))).
  assert (Hin : In REPLACEMENT
                  (rstrip (map repair (utf8_scan (next_line w s p))))).
  { apply rstrip_keeps; [reflexivity |].
    apply repair_malformed, strict_rejects, Hbad. }
  repeat split; auto using decode_replace.
  fold (next_line w s p) in Hout. fold (stamp_at w s) in Hout.
  cbv zeta in Hout.
  destruct (rstrip (map repair (utf8_scan (next_line w s p)))); [contradiction |].
  exact Hout.
Qed.

(** the device sends the byte FF, then [bad], carriage return, newline *)
Lemma C4_witness :
  exists s',
    loop_body world_bad_utf8 (first_poll world_bad_utf8) = (s', Ok tt)
    /\ stdout s'
       = banner ++ [text "[01:00:00] " ++ [REPLACEMENT] ++ text "bad"]
    /\ ser_bound_and_open s' = true.
Proof.
  destruct (C4_invalid_utf8_is_replaced world_bad_utf8
              (first_poll world_bad_utf8)
              (mkSerial true
                 (map (pair 7%nat) [xff; x62; x61; x64; x0d; x0a])))
    as (s' & decoded & _ & Hdec & _ & Hrun & Hout & Hopen).
  - reflexivity.
  - reflexivity.
  - intros i Hi. reflexivity.
  - vm_compute. discriminate.
  - vm_compute. reflexivity.
  - exists s'. split; [exact Hrun |]. split; [| exact Hopen].
    rewrite Hout, Hdec. vm_compute. reflexivity.
Defined.

(** *** Failures *)

(** C3 -- when opening the port fails with a [SerialException], the
    script prints the one line [Error opening serial port: ...] and ends
    with status 0; the log of the run holds the failed open and that
    print only, so neither banner nor loop was reached, and [ser] was
    never bound. *)
Theorem C3_open_failure_prints_one_error (w : World) (fuel : nat) (m : str) :
  fault w 0 = Some (SerialException m) ->
  fault w 1 = None ->
  monitor w fuel
  = (mkState 2 (boot_time w + latency w 0 + latency w 1) None
       [text "Error opening serial port: " ++ m] []
       [mkEvent 0 OpOpen (Some (SerialException m));
        mkEvent 1 (OpPrint (text "Error opening serial port: " ++ m)) None],
     Exit 0).
Proof.
  intros F0 F1.
  pose proof (env_call_raises w OpOpen (init_state w) _ F0) as Hopen.
  unfold monitor, monitor_from, try_body, startup, Serial_open.
  rewrite (bind_raise _ _ _ _ _
             (bind_raise _ _ _ _ _ (bind_raise _ _ _ _ _ Hopen))).
  cbn [handler]. rewrite print_returns by exact F1. reflexivity.
Qed.

Lemma C3_witness :
  stdout (fst (monitor world_no_port 2001))
  = [text "Error opening serial port: could not open port /dev/ttyUSB0"]
  /\ snd (monitor world_no_port 2001) = Exit 0.
Proof.
  rewrite (C3_open_failure_prints_one_error world_no_port 2001
             (text "could not open port /dev/ttyUSB0") eq_refl eq_refl).
  split; reflexivity.
Defined.

(** C5 -- an [Exception] raised while a line is read, decoded or
    printed (lines 27-31) is caught by the inner clause: one line
    [Error reading line: ...] is printed, the round ends normally, and
    the loop carries on with its next round. *)
Theorem C5_line_failure_is_reported_and_loop_goes_on
    (w : World) (fuel : nat) (start t : Z) (s0 sa s s1 : State) (n : nat)
    (e : exn) :
  time_time w s0 = (sa, Ok t) -> t - start < RUN_NS ->
  ser_in_waiting w sa = (s, Ok n) -> (0 < n)%nat ->
  read_and_print w s = (s1, Raise e) ->
  is_Exception e = true ->
  fault w (tick s1) = None ->
  exists s2,
    loop_body w sa = (s2, Ok tt)
    /\ stdout s2 = stdout s1 ++ [text "Error reading line: " ++ str_of_exn e]
    /\ ser s2 = deliver w s1
    /\ loop w (S fuel) start s0 = loop w fuel start s2.
Proof.
  intros Ht Hlt Hn Hpos Hread He F.
  pose proof (guarded_read_catches w s s1 e Hread He F) as Hcatch.
  assert (Hbody : loop_body w sa = guarded_read w s).
  { unfold loop_body. rewrite (bind_ok _ _ _ _ _ Hn).
    apply Nat.ltb_lt in Hpos. now rewrite Hpos. }
  rewrite Hcatch in Hbody.
  eexists. split; [exact Hbody |]. repeat split.
  rewrite loop_S, (bind_ok _ _ _ _ _ Ht).
  apply Z.ltb_lt in Hlt. rewrite Hlt.
  now rewrite (bind_ok _ _ _ _ _ Hbody).
Qed.

(** a line arrives but [readline] raises a [SerialException] *)
Lemma C5_witness :
  exists s2,
    loop_body world_read_fails (first_poll world_read_fails) = (s2, Ok tt)
    /\ stdout s2
       = banner
         ++ [text "Error reading line: device reports readiness to read but returned no data"]
    /\ ser_bound_and_open s2 = true
    /\ loop world_read_fails 3 7000000
         (fst (startup world_read_fails (init_state world_read_fails)))
       = loop world_read_fails 2 7000000 s2.
Proof.
  destruct (C5_line_failure_is_reported_and_loop_goes_on world_read_fails 2
              7000000 8000000
              (fst (startup world_read_fails (init_state world_read_fails)))
              (first_poll world_read_fails)
              (fst (ser_in_waiting world_read_fails
                      (first_poll world_read_fails)))
              (fst (read_and_print world_read_fails
                      (fst (ser_in_waiting world_read_fails
                              (first_poll world_read_fails)))))
              3
              (SerialException
                 (text "device reports readiness to read but returned no data")))
    as (s2 & Hrun & Hout & Hser & Hloop).
  - vm_compute. reflexivity.
  - vm_compute. reflexivity.
  - vm_compute. reflexivity.
  - lia.
  - vm_compute. reflexivity.
  - reflexivity.
  - reflexivity.
  - exists s2. split; [exact Hrun |]. split; [exact Hout |].
    split; [| exact Hloop].
    unfold ser_bound_and_open. rewrite Hser. vm_compute. reflexivity.
Defined.

(** Rules for [verdict]. *)

Lemma verdict_ret {A} (P : State -> Prop) (a : A) Q E F :
  (forall s, P s -> Q a s) -> verdict P (ret a) Q E F.
Proof. intros H s Hs. simpl. auto. Qed.

Lemma verdict_bind {A B} P (m : M A) (k : A -> M B) Q1 Q E F :
  verdict P m Q1 E F ->
  (forall a, verdict (Q1 a) (k a) Q E F) ->
  verdict P (bind m k) Q E F.
Proof.
  intros Hm Hk s Hs. unfold bind. specialize (Hm s Hs).
  destruct (m s) as [s1 [a | e | ]]; auto.
  apply (Hk a s1 Hm).
Qed.

Lemma verdict_if {A} (b : bool) P (m1 m2 : M A) Q E F :
  verdict P m1 Q E F -> verdict P m2 Q E F ->
  verdict P (if b then m1 else m2) Q E F.
Proof. destruct b; auto. Qed.

Lemma verdict_pre {A} (P P' : State -> Prop) (m : M A) Q E F :
  verdict P' m Q E F -> (forall s, P s -> P' s) -> verdict P m Q E F.
Proof. intros Hm HP s Hs. apply (Hm s (HP s Hs)). Qed.

(** [try ... except Exception]: the clause runs for instances of
    [Exception] only; anything else goes through untouched *)
Lemma verdict_try {A} P (m : M A) (h : exn -> M A) Q E1 E F :
  verdict P m Q E1 F ->
  (forall e, is_Exception e = true -> verdict (E1 e) (h e) Q E F) ->
  (forall e s, is_Exception e = false -> E1 e s -> E e s) ->
  verdict P (try_except_Exception m h) Q E F.
Proof.
  intros Hm Hh HE s Hs. unfold try_except_Exception. specialize (Hm s Hs).
  destruct (m s) as [s1 [a | e | ]]; auto.
  destruct (is_Exception e) eqn:He.
  - apply (Hh e He s1 Hm).
  - now apply HE.
Qed.

Section Interrupt.

Variable w : World.
Variable n : nat.
Hypothesis Hint : fault w n = Some KeyboardInterrupt.

(** a library call made before or at interaction [n] *)
Lemma struck_env_call o :
  verdict (before n) (env_call w o) (fun _ => before n) (struck n) (before n).
Proof.
  intros s [Ha Ht]. unfold env_call.
  assert (Ha' : attached (after_call w o s)).
  { unfold attached. now rewrite bound_open_after_call. }
  destruct (Nat.eq_dec (tick s) n) as [Heq | Hne].
  - rewrite Heq, Hint. split; [exact Ha' |]. right.
    split; [reflexivity |]. simpl. now rewrite Heq.
  - destruct (fault w (tick s)) as [e |].
    + split; [exact Ha' |]. left. simpl. lia.
    + split; [exact Ha' |]. simpl. lia.
Qed.

Lemma struck_lookup_ser :
  verdict (before n) lookup_ser
    (fun p s => before n s /\ is_open p = true) (struck n) (before n).
Proof.
  intros s [Ha Ht]. unfold lookup_ser.
  pose proof Ha as Ha'. unfold attached, ser_bound_and_open in Ha'.
  destruct (ser s) as [p |] eqn:Hp; [| discriminate].
  repeat split; auto.
Qed.

Ltac struck_port :=
  eapply verdict_bind; [apply struck_lookup_ser |];
  intros p; destruct (is_open p) eqn:?;
  [| intros ? [_ ?]; congruence].

Ltac struck_call :=
  eapply verdict_bind;
  [ apply verdict_pre with (P' := before n);
    [ apply struck_env_call | intros ? [? _]; assumption ]
  | ].

Lemma struck_print line :
  verdict (before n) (print w line) (fun _ => before n) (struck n) (before n).
Proof.
  unfold print. eapply verdict_bind; [apply struck_env_call |].
  intros ? s Hs. exact Hs.
Qed.

Lemma struck_time_time :
  verdict (before n) (time_time w) (fun _ => before n) (struck n) (before n).
Proof.
  unfold time_time. eapply verdict_bind; [apply struck_env_call |].
  intros ? s Hs. exact Hs.
Qed.

Lemma struck_time_strftime :
  verdict (before n) (time_strftime w) (fun _ => before n) (struck n)
    (before n).
Proof.
  unfold time_strftime. eapply verdict_bind; [apply struck_env_call |].
  intros ? s Hs. exact Hs.
Qed.

Lemma struck_time_sleep :
  verdict (before n) (time_sleep w) (fun _ => before n) (struck n) (before n).
Proof.
  unfold time_sleep. eapply verdict_bind; [apply struck_env_call |].
  intros ? s Hs. exact Hs.
Qed.

Lemma struck_in_waiting :
  verdict (before n) (ser_in_waiting w) (fun _ => before n) (struck n)
    (before n).
Proof.
  unfold ser_in_waiting. struck_port. struck_call.
  intros ? s Hs. exact Hs.
Qed.

Lemma struck_readline :
  verdict (before n) (ser_readline w) (fun _ => before n) (struck n)
    (before n).
Proof.
  unfold ser_readline. struck_port. struck_call.
  intros ? s [Ha Ht]. unfold attached, ser_bound_and_open in Ha.
  destruct (ser s) as [q |] eqn:Hq; [| discriminate].
  destruct (split_line (in_buffer q)) as [line rest].
  split; [exact Ha | exact Ht].
Qed.

Lemma struck_read_and_print :
  verdict (before n) (read_and_print w) (fun _ => before n) (struck n)
    (before n).
Proof.
  unfold read_and_print.
  eapply verdict_bind; [apply struck_readline |]. intros raw.
  rewrite decode_replace. apply verdict_if; [| now apply verdict_ret].
  eapply verdict_bind; [apply struck_time_strftime |]. intros ts.
  eapply verdict_bind; [apply struck_print |]. intros ?.
  apply struck_env_call.
Qed.

(** lines 26-33: the inner clause does not stop an interrupt *)
Lemma struck_guarded_read :
  verdict (before n) (guarded_read w) (fun _ => before n) (struck n)
    (before n).
Proof.
  unfold guarded_read. eapply verdict_try.
  - apply struck_read_and_print.
  - intros e He. apply verdict_pre with (P' := before n);
      [apply struck_print |].
    intros s [Ha [Ht | [-> _]]]; [now split | discriminate].
  - auto.
Qed.

Lemma struck_loop fuel start :
  verdict (before n) (loop w fuel start) (fun _ => before n) (struck n)
    (before n).
Proof.
  induction fuel as [| fuel IH]; [intros s Hs; exact Hs |].
  cbn [loop]. eapply verdict_bind; [apply struck_time_time |].
  intros t. apply verdict_if; [| now apply verdict_ret].
  eapply verdict_bind; [| intros ?; exact IH].
  unfold loop_body.
  eapply verdict_bind; [apply struck_in_waiting |]. intros k.
  apply verdict_if; [apply struck_guarded_read | apply struck_time_sleep].
Qed.

(** An interrupt delivered at interaction [n]: a loop that makes this
    interaction is left by that very call, with [KeyboardInterrupt]. *)
Lemma interrupt_leaves_loop fuel start s s1 r :
  attached s -> (tick s <= n)%nat ->
  loop w fuel start s = (s1, r) ->
  (n < tick s1)%nat ->
  r = Raise KeyboardInterrupt /\ tick s1 = S n /\ attached s1.
Proof.
  intros Ha Ht Hloop Hmade.
  pose proof (struck_loop fuel start s (conj Ha Ht)) as H.
  rewrite Hloop in H. destruct r as [[] | e |].
  - destruct H as [_ H]. lia.
  - destruct H as [Ha1 [H | [-> H]]]; [lia | auto].
  - destruct H as [_ H]. lia.
Qed.

End Interrupt.

(** C6 (as amended) -- an interrupt delivered during the loop, at
    whichever of its library calls, inside or outside the inner [try],
    leaves the loop at once and reaches the interrupt clause.  If
    neither the [print] nor the [close()] of that clause raises, the one
    line [Monitoring stopped by user.] is printed, the port, open at
    that moment, is closed by one [close()], and the script ends with
    status 0 and no traceback.  Wherever an interrupt strikes, the
    clause invokes [close()] exactly when [ser] is bound to an open
    port.  The interrupt is the exception raised by interaction [n], an
    interaction the loop makes. *)
Theorem C6_interrupt_in_loop_stops_and_closes
    (w : World) (fuel : nat) (start : Z) (n : nat) (s s1 : State)
    (r : result unit) :
  startup w (init_state w) = (s, Ok start) ->
  (tick s <= n)%nat ->
  fault w n = Some KeyboardInterrupt ->
  loop w fuel start s = (s1, r) ->
  (n < tick s1)%nat ->
  calm w (tick s1) 2 ->
  (r = Raise KeyboardInterrupt
   /\ tick s1 = S n
   /\ exists s2,
        monitor w fuel = (s2, Exit 0)
        /\ stdout s2 = stdout s1 ++ [msg_stopped]
        /\ ser_bound_and_open s1 = true
        /\ ser_bound_and_open s2 = false
        /\ trace s2
           = trace s1 ++ [mkEvent (tick s1) (OpPrint msg_stopped) None;
                          mkEvent (S (tick s1)) (OpClose true) None])
  /\ (forall s', calm w (tick s') 2 ->
        exists s2',
          handler w KeyboardInterrupt s' = (s2', Ok tt)
          /\ trace s2'
             = trace s' ++ mkEvent (tick s') (OpPrint msg_stopped) None
                 :: (if ser_bound_and_open s'
                     then [mkEvent (S (tick s')) (OpClose true) None]
                     else [])).
Proof.
  intros Hstart Hn Hint Hloop Hmade Hc. split.
  - assert (Ha : attached s).
    { assert (H0 : safe_trace (init_state w)) by apply Forall_nil.
      pose proof (keeps_startup w _ H0) as Hs. rewrite Hstart in Hs.
      apply Hs. }
    destruct (interrupt_leaves_loop w n Hint fuel start s s1 r Ha Hn Hloop
                Hmade) as (-> & Htick & Hopen).
    split; [reflexivity |]. split; [exact Htick |].
    destruct (handler_interrupt w s1 Hc) as (s2 & Hh & Hout & Hclosed & Htr).
    exists s2. unfold attached in Hopen. rewrite Hopen in Htr.
    repeat split; auto.
    rewrite (monitor_via_try_body w fuel s1 (Raise KeyboardInterrupt)).
    + now rewrite Hh.
    + unfold try_body. rewrite (bind_ok _ _ _ _ _ Hstart).
      now rewrite (bind_raise _ _ _ _ _ Hloop).
  - intros s' Hc'.
    destruct (handler_interrupt w s' Hc') as (s2 & Hh & _ & _ & Htr).
    now exists s2.
Qed.

(** Ctrl+C while [readline] reads a line, inside the inner [try] *)
Lemma C6_witness :
  exists s2,
    monitor world_ctrl_c_reading 2001 = (s2, Exit 0)
    /\ stdout s2 = banner ++ [msg_stopped]
    /\ ser_bound_and_open s2 = false.
Proof.
  destruct (C6_interrupt_in_loop_stops_and_closes world_ctrl_c_reading 2001
              7000000 9
              (fst (startup world_ctrl_c_reading
                      (init_state world_ctrl_c_reading)))
              (fst (loop world_ctrl_c_reading 2001 7000000
                      (fst (startup world_ctrl_c_reading
                              (init_state world_ctrl_c_reading)))))
              (Raise KeyboardInterrupt))
    as [(_ & _ & s2 & Hrun & Hout & _ & Hclosed & _) _].
  - vm_compute. reflexivity.
  - vm_compute. lia.
  - reflexivity.
  - vm_compute. reflexivity.
  - vm_compute. lia.
  - intros i Hi. destruct i as [| [| i]]; [reflexivity | reflexivity | lia].
  - exists s2. split; [exact Hrun |]. split; [| exact Hclosed].
    rewrite Hout. vm_compute. reflexivity.
Defined.

(** The claim without the proviso fails: Ctrl+C during the first sleep
    of the loop and again while the clause prints.  The second
    interrupt escapes the clause: a traceback, nothing printed after
    the banner, and the port still open. *)
Lemma C6_counterexample :
  snd (loop world_ctrl_c_twice 2001 7000000
         (fst (startup world_ctrl_c_twice (init_state world_ctrl_c_twice))))
  = Raise KeyboardInterrupt
  /\ snd (monitor world_ctrl_c_twice 2001) = Traceback KeyboardInterrupt
  /\ stdout (fst (monitor world_ctrl_c_twice 2001)) = banner
  /\ ser_bound_and_open (fst (monitor world_ctrl_c_twice 2001)) = true.
Proof. repeat split; vm_compute; reflexivity. Qed.

Lemma calm_shorter w n k k' : (k' <= k)%nat -> calm w n k -> calm w n k'.
Proof. intros Hle H i Hi. apply H. lia. Qed.

(** every clause prints its one line and ends normally, after one or
    two library calls *)
Lemma handler_done (w : World) (e : exn) (s : State) :
  calm w (tick s) 2 ->
  exists s2,
    handler w e s = (s2, Ok tt)
    /\ stdout s2 = stdout s ++ [handler_message e]
    /\ (tick s2 = S (tick s) \/ tick s2 = S (S (tick s))).
Proof.
  intros Hc. calm_split Hc. destruct e as [m | | m]; cbn [handler].
  - rewrite print_returns by exact F. eexists.
    split; [reflexivity |]. split; [reflexivity | now left].
  - erewrite bind_ok by (now apply print_returns).
    unfold ser_bound_and_open. cbn [tick now ser stdout rx_log trace].
    destruct (deliver w s) as [p |] eqn:Hp.
    + destruct (is_open p) eqn:Ho.
      * erewrite ser_close_returns; [| reflexivity | exact F0].
        eexists. split; [reflexivity |]. split; [reflexivity | now right].
      * eexists. split; [reflexivity |]. split; [reflexivity | now left].
    + eexists. split; [reflexivity |]. split; [reflexivity | now left].
  - rewrite print_returns by exact F. eexists.
    split; [reflexivity |]. split; [reflexivity | now left].
Qed.

(** C9 (as amended) -- on every path on which no call made inside an
    [except] clause raises and the flush of standard output at
    interpreter exit succeeds: however the [try] body ends, no exception
    escapes the script, after an exception the matching clause prints
    its one line and after normal completion nothing more is printed,
    and the process exits with status 0.  A failure on a single line
    likewise yields the one line of the inner clause. *)
Theorem C9_status_0_when_no_clause_raises
    (w : World) (fuel : nat) (s1 : State) (r : result unit) :
  try_body w fuel (init_state w) = (s1, r) ->
  r <> OutOfFuel ->
  calm w (tick s1) 3 ->
  (exists s2 s3,
      monitor w fuel = (s2, Exit 0)
      /\ stdout s2 = stdout s1 ++ match r with
                                  | Raise e => [handler_message e]
                                  | _ => []
                                  end
      /\ process w fuel = (s3, Exit 0)
      /\ stdout s3 = stdout s2)
  /\ (forall s sa e,
        read_and_print w s = (sa, Raise e) -> is_Exception e = true ->
        fault w (tick sa) = None ->
        exists sb,
          guarded_read w s = (sb, Ok tt)
          /\ stdout sb = stdout sa ++ [msg_line_error e]).
Proof.
  intros Hbody Hr Hc. split.
  - assert (Hrun : exists s2,
               monitor w fuel = (s2, Exit 0)
               /\ stdout s2 = stdout s1 ++ match r with
                                           | Raise e => [handler_message e]
                                           | _ => []
                                           end
               /\ fault w (tick s2) = None).
    { rewrite (monitor_via_try_body w fuel s1 r Hbody).
      destruct r as [[] | e |]; [| | congruence].
      - exists s1. split; [reflexivity |].
        split; [now rewrite app_nil_r |].
        rewrite <- (Hc 0%nat) by lia. f_equal. lia.
      - destruct (handler_done w e s1 (calm_shorter w _ 3 2 (le_S _ _ (le_n _)) Hc))
          as (s2 & Hh & Hout & Htick).
        exists s2. rewrite Hh. split; [reflexivity |].
        split; [exact Hout |].
        destruct Htick as [-> | ->].
        + rewrite <- (Hc 1%nat) by lia. f_equal. lia.
        + rewrite <- (Hc 2%nat) by lia. f_equal. lia. }
    destruct Hrun as (s2 & Hmon & Hout & Hflush).
    exists s2, (after_call w OpFlush s2).
    split; [exact Hmon |]. split; [exact Hout |].
    unfold process. rewrite Hmon. cbn [interpreter_exit].
    rewrite Hflush. split; reflexivity.
  - intros s sa e Hread He F. eexists.
    split; [apply (guarded_read_catches w s sa e Hread He F) | reflexivity].
Qed.

(** the unplugged device again: one line, status 0 *)
Lemma C9_witness :
  exists s2 s3,
    monitor world_unplugged 2001 = (s2, Exit 0)
    /\ stdout s2
       = banner ++ [text "Unexpected error: [Errno 5] Input/output error"]
    /\ process world_unplugged 2001 = (s3, Exit 0).
Proof.
  destruct (C9_status_0_when_no_clause_raises world_unplugged 2001
              (fst (try_body world_unplugged 2001 (init_state world_unplugged)))
              (Raise (OtherException (text "[Errno 5] Input/output error"))))
    as [(s2 & s3 & Hrun & Hout & Hproc & _) _].
  - vm_compute. reflexivity.
  - discriminate.
  - intros i Hi.
    destruct i as [| [| [| i]]]; [reflexivity | reflexivity | reflexivity | lia].
  - exists s2, s3. split; [exact Hrun |]. split; [| exact Hproc].
    rewrite Hout. vm_compute. reflexivity.
Defined.

(** The claim without the provisos fails twice over.  The port cannot
    be opened and Ctrl+C strikes while the clause prints: the interrupt
    escapes as a traceback and no message at all is printed.  And with
    no clause disturbed, a failing flush of standard output at exit
    makes the exit status 120. *)
Lemma C9_counterexample :
  (snd (monitor world_no_port_ctrl_c 2001) = Traceback KeyboardInterrupt
   /\ stdout (fst (monitor world_no_port_ctrl_c 2001)) = [])
  /\ (snd (monitor world_no_port_flush_fails 2001) = Exit 0
      /\ snd (process world_no_port_flush_fails 2001) = Exit 120).
Proof. repeat split; vm_compute; reflexivity. Qed.

(** *** Timing *)

(** C7 -- with no input and nothing raised, a clock that does not run
    backwards, and an idle round (clock reading, availability query,
    10 ms sleep) lasting at most the 1 s read timeout: the loop ends,
    at a clock reading at least 20 s and less than 20 s + 1 s after the
    start time, and the script completes with the banner and
    [Monitoring complete.] as its only output.  A round is entered
    exactly when the reading minus the start time is below 20 s.
    Clock readings are exact counts of nanoseconds. *)
Theorem C7_idle_loop_ends_within_a_timeout_of_the_deadline
    (w : World) (fuel : nat) :
  never_raises w -> silent w -> clock_monotone w -> round_within_timeout w ->
  (2001 <= fuel)%nat ->
  (exists s0 s1 s2,
      startup w (init_state w) = (s0, Ok (now s0))
      /\ loop w fuel (now s0) s0 = (s1, Ok tt)
      /\ 20 * NS_PER_S <= now s1 - now s0 < 20 * NS_PER_S + 1 * NS_PER_S
      /\ monitor w fuel = (s2, Exit 0)
      /\ stdout s2 = banner ++ [msg_complete])
  /\ (forall f start s s' t,
        time_time w s = (s', Ok t) ->
        loop w (S f) start s
        = if t - start <? 20 * NS_PER_S
          then bind (loop_body w) (fun _ => loop w f start) s'
          else (s', Ok tt)).
Proof.
  intros Hq Hs Hm Hr Hfuel. split.
  - destruct (startup_quiet w Hq Hs) as (s0 & Hstart & Hser & Hout & _).
    destruct fuel as [| f]; [lia |].
    destruct (loop_idle_terminates w Hq Hs Hm Hr (now s0) f s0 Hser)
      as (s1 & Hloop & Hbound & Hser1 & Hout1).
    + pose proof (Hr (tick s0)) as H0.
      pose proof (Hm (S (tick s0))) as H1.
      pose proof (Hm (S (S (tick s0)))) as H2.
      unfold RUN_NS, TIMEOUT_NS, SLEEP_NS, NS_PER_S in *. lia.
    + unfold RUN_NS, SLEEP_NS, NS_PER_S. lia.
    + exists s0, s1. eexists. repeat split; try apply Hbound; eauto.
      * unfold monitor, monitor_from, try_body.
        rewrite (bind_ok _ _ _ _ _ Hstart), (bind_ok _ _ _ _ _ Hloop).
        erewrite bind_ok by (apply ser_close_returns; [exact Hser1 | apply Hq]).
        rewrite print_returns by apply Hq. reflexivity.
      * cbn [stdout]. now rewrite Hout1, Hout.
  - intros f start s s' t Ht. rewrite loop_S, (bind_ok _ _ _ _ _ Ht).
    change (20 * NS_PER_S) with RUN_NS.
    now destruct (t - start <? RUN_NS).
Qed.

(** a silent device, each library call taking a millisecond *)
Lemma C7_witness :
  exists s0 s1 s2,
    startup world_idle (init_state world_idle) = (s0, Ok (now s0))
    /\ loop world_idle 2001 (now s0) s0 = (s1, Ok tt)
    /\ 20 * NS_PER_S <= now s1 - now s0 < 20 * NS_PER_S + 1 * NS_PER_S
    /\ monitor world_idle 2001 = (s2, Exit 0)
    /\ stdout s2 = banner ++ [msg_complete].
Proof.
  refine (proj1 (C7_idle_loop_ends_within_a_timeout_of_the_deadline
                   world_idle 2001 _ _ _ _ _)).
  - intros n. reflexivity.
  - intros n. reflexivity.
  - intros n. simpl. lia.
  - intros n. simpl. unfold SLEEP_NS, TIMEOUT_NS, NS_PER_S. lia.
  - lia.
Defined.

(** *** The input buffer *)

(** C8 -- the input buffer is cleared once, before the start time is
    recorded and before the loop runs, and no byte buffered at that
    moment is ever read, hence none is printed.  Whatever the world
    does and however long the run: either no operation of the timed
    phase was ever made and nothing was read, or the log of the run
    holds exactly one reset, which returned, with no operation of the
    timed phase before it, and every byte handed out by [readline]
    reached the port during a later library call. *)
Theorem C8_input_buffer_reset_once_before_timing (w : World) (fuel : nat) :
  untimed (fst (monitor w fuel))
  \/ exists r, reset_at r (fst (monitor w fuel)).
Proof. apply discipline_monitor. Qed.

(** [old] is buffered while the banner is printed, [new] arrives in the
    loop: only [new] is read *)
Lemma C8_witness :
  (exists r, reset_at r (fst (monitor world_stale 3)))
  /\ map snd (rx_log (fst (monitor world_stale 3))) = [x6e; x65; x77; x0a]
  /\ stdout (fst (monitor world_stale 3)) = banner ++ [text "[01:00:00] new"].
Proof.
  split; [| split; vm_compute; reflexivity].
  destruct (C8_input_buffer_reset_once_before_timing world_stale 3)
    as [[H _] | H]; [| exact H].
  vm_compute in H. discriminate.
Defined.

(** C10 -- [close()] is never invoked on an unbound name or on a port
    that is already closed: no run logs a [close()] that met a closed
    port, nor a use of [ser] before its assignment; and when [ser] is
    unbound or its port closed, the interrupt clause does nothing but
    print. *)
Theorem C10_close_only_meets_an_open_port (w : World) (fuel : nat) :
  Forall (fun ev => ev_op ev <> OpClose false /\ ev_op ev <> OpUnbound)
    (trace (fst (monitor w fuel)))
  /\ (forall s, ser_bound_and_open s = false ->
        handler w KeyboardInterrupt s = print w msg_stopped s).
Proof.
  split.
  - assert (H : safe_trace (fst (monitor w fuel))).
    { apply safe_monitor_from, Forall_nil. }
    unfold safe_trace in H. eapply Forall_impl; [| exact H].
    intros ev Hev. cbv beta in Hev.
    split; intros Heq; rewrite Heq in Hev; discriminate.
  - intros s Hs. cbn [handler].
    destruct (fault w (tick s)) as [e |] eqn:F.
    + rewrite (bind_raise _ _ _ _ _ (print_raises w _ s e F)).
      now rewrite print_raises with (e := e).
    + rewrite (bind_ok _ _ _ _ _ (print_returns w _ s F)).
      rewrite print_returns by exact F.
      match goal with
      | |- (if ?b then _ else _) = _ => replace b with false; [reflexivity |]
      end.
      rewrite <- Hs. symmetry.
      apply (bound_open_after_call w (OpPrint msg_stopped) s).
Qed.

(** Ctrl+C while the port is being opened: [ser] is unbound, nothing is
    closed *)
Lemma C10_witness :
  handler world_ctrl_c_early KeyboardInterrupt
    (fst (try_body world_ctrl_c_early 2001 (init_state world_ctrl_c_early)))
  = print world_ctrl_c_early msg_stopped
      (fst (try_body world_ctrl_c_early 2001 (init_state world_ctrl_c_early)))
  /\ trace (fst (monitor world_ctrl_c_early 2001))
     = [mkEvent 0 OpOpen (Some KeyboardInterrupt);
        mkEvent 1 (OpPrint msg_stopped) None].
Proof.
  split.
  - apply (proj2 (C10_close_only_meets_an_open_port world_ctrl_c_early 0)).
    vm_compute. reflexivity.
  - vm_compute. reflexivity.
Defined.

(** ** Further properties *)

(** *** The deadline *)

Lemma time_time_now (w : World) (s s' : State) (t : Z) :
  time_time w s = (s', Ok t) -> t = now s'.
Proof.
  unfold time_time, bind, env_call.
  destruct (fault w (tick s)); [discriminate |].
  intros H. injection H as <- <-. reflexivity.
Qed.

(** X1 -- the loop never ends early: whenever it returns, the clock
    reading it stopped at is at least 20 s past the start time,
    whatever arrived and whatever was caught on the way. *)
Theorem X1_loop_returns_only_after_the_deadline
    (w : World) (fuel : nat) (start : Z) (s s' : State) :
  loop w fuel start s = (s', Ok tt) -> 20 * NS_PER_S <= now s' - start.
Proof.
  revert s. induction fuel as [| fuel IH]; intros s; [discriminate |].
  rewrite loop_S. unfold bind at 1.
  destruct (time_time w s) as [s1 [t | e |]] eqn:Ht; try discriminate.
  apply time_time_now in Ht. subst t.
  destruct (Z.ltb_spec (now s1 - start) RUN_NS) as [Hlt | Hge].
  - unfold bind. destruct (loop_body w s1) as [s2 [[] | e |]];
      try discriminate. apply IH.
  - intros H. injection H as <-. exact Hge.
Qed.

Lemma X1_witness :
  20 * NS_PER_S
  <= now (fst (loop world_slow 3 (7 * (5 * NS_PER_S))
                 (fst (startup world_slow (init_state world_slow)))))
     - 7 * (5 * NS_PER_S).
Proof.
  apply (X1_loop_returns_only_after_the_deadline world_slow 3
           (7 * (5 * NS_PER_S))
           (fst (startup world_slow (init_state world_slow)))).
  vm_compute. reflexivity.
Defined.

(** *** When the port is left open *)

(** X2 -- the port is open when the script ends exactly when an
    [Exception] escaped the [try] body while the port was open: normal
    completion and the interrupt clause close it, the other two clauses
    leave it as it is.  No call made by a clause is taken to raise. *)
Theorem X2_port_is_left_open_exactly_by_the_Exception_clauses
    (w : World) (fuel : nat) (s1 : State) (r : result unit) :
  try_body w fuel (init_state w) = (s1, r) ->
  r <> OutOfFuel ->
  calm w (tick s1) 2 ->
  ser_bound_and_open (fst (monitor w fuel))
  = match r with
    | Raise e => is_Exception e && ser_bound_and_open s1
    | _ => false
    end.
Proof.
  intros Hbody Hr Hc.
  rewrite (monitor_via_try_body w fuel s1 r Hbody).
  destruct r as [[] | e |]; [| | congruence].
  - cbn [finish fst]. exact (normal_completion_closes w fuel _ _ Hbody).
  - destruct e as [m | | m].
    + calm_split Hc. cbn [handler]. rewrite print_returns by exact F.
      cbn [finish fst is_Exception andb].
      apply (bound_open_after_call w (OpPrint (msg_open_error (SerialException m))) s1).
    + destruct (handler_interrupt w s1 Hc) as (s2 & Hh & _ & Hclosed & _).
      rewrite Hh. exact Hclosed.
    + calm_split Hc. cbn [handler]. rewrite print_returns by exact F.
      cbn [finish fst is_Exception andb].
      apply (bound_open_after_call w (OpPrint (msg_unexpected (OtherException m))) s1).
Qed.

(** the read fails before the loop: [reset_input_buffer] raises a
    [SerialException]; the port stays open *)
Lemma X2_witness :
  ser_bound_and_open (fst (monitor world_reset_fails 2001)) = true
  /\ stdout (fst (monitor world_reset_fails 2001))
     = banner ++ [text "Error opening serial port: device disconnected"].
Proof.
  split.
  - rewrite (X2_port_is_left_open_exactly_by_the_Exception_clauses
               world_reset_fails 2001
               (fst (try_body world_reset_fails 2001
                       (init_state world_reset_fails)))
               (Raise (SerialException (text "device disconnected")))).
    + vm_compute. reflexivity.
    + vm_compute. reflexivity.
    + discriminate.
    + intros i Hi. destruct i as [| [| i]]; [reflexivity | reflexivity | lia].
  - vm_compute. reflexivity.
Defined.

(** *** Decoding and stripping *)

Lemma strict_then_replace cs t :
  apply_handler Strict cs = Some t -> apply_handler Replace cs = Some t.
Proof.
  revert t. induction cs as [| [cp | n] cs IH]; simpl; intros t.
  - auto.
  - destruct (apply_handler Strict cs) as [t' |]; [| discriminate].
    rewrite (IH t' eq_refl). auto.
  - discriminate.
Qed.

(** X3 -- the permissive decoding changes nothing for well-formed
    input: a line that strict UTF-8 decoding accepts is decoded to the
    same text under ['replace'], so no placeholder appears in it. *)
Theorem X3_well_formed_lines_decode_as_under_strict
    (bs : list byte) (t : str) :
  decode_utf8 Strict bs = Some t -> decode_utf8 Replace bs = Some t.
Proof. apply strict_then_replace. Qed.

(** the euro sign, three bytes *)
Lemma X3_witness : decode_utf8 Replace [xe2; x82; xac] = Some [8364%N].
Proof.
  apply X3_well_formed_lines_decode_as_under_strict. vm_compute. reflexivity.
Defined.

Lemma utf8_scan_ascii bs :
  Forall (fun b => (Byte.to_N b < 128)%N) bs ->
  utf8_scan bs = map (fun b => Scalar (Byte.to_N b)) bs.
Proof.
  induction 1 as [| b bs Hb _ IH]; [reflexivity |].
  unfold utf8_scan; fold utf8_scan. cbv zeta. apply N.ltb_lt in Hb.
  rewrite Hb. cbn [map]. now rewrite IH.
Qed.

(** X4 -- plain ASCII passes through: when every byte of a line is
    below 128, the decoded text is the line byte for byte, under either
    error handler. *)
Theorem X4_ascii_lines_decode_byte_for_byte (h : error_handler)
    (bs : list byte) :
  Forall (fun b => (Byte.to_N b < 128)%N) bs ->
  decode_utf8 h bs = Some (map Byte.to_N bs).
Proof.
  intros H. unfold decode_utf8. rewrite (utf8_scan_ascii bs H).
  clear H. induction bs as [| b bs IH]; [reflexivity |].
  cbn [map apply_handler]. now rewrite IH.
Qed.

Lemma X4_witness :
  decode_utf8 Replace [x68; x69; x0d; x0a] = Some [104; 105; 13; 10]%N.
Proof.
  apply (X4_ascii_lines_decode_byte_for_byte Replace [x68; x69; x0d; x0a]).
  repeat constructor.
Defined.

Lemma rstrip_cons c s :
  rstrip (c :: s)
  = match rstrip s with
    | [] => if is_space c then [] else [c]
    | kept => c :: kept
    end.
Proof. reflexivity. Qed.

Lemma rstrip_nil_all_space s :
  rstrip s = [] -> Forall (fun c => is_space c = true) s.
Proof.
  induction s as [| c s IH]; [constructor |].
  rewrite rstrip_cons. destruct (rstrip s) as [| k kept] eqn:Hs.
  - destruct (is_space c) eqn:Hc; [| discriminate].
    intros _. constructor; auto.
  - discriminate.
Qed.

(** X5 -- stripping removes trailing white space and nothing else: the
    text splits into what is kept followed by white space only, and
    what is kept, unless empty, ends in a character that is not white
    space.  Leading and inner white space stays. *)
Theorem X5_rstrip_removes_exactly_the_trailing_white_space (s : str) :
  exists tail,
    s = rstrip s ++ tail
    /\ Forall (fun c => is_space c = true) tail
    /\ (rstrip s = [] \/ is_space (last (rstrip s) 0%N) = false).
Proof.
  induction s as [| c s (tail & Heq & Htail & Hlast)].
  - exists []. repeat split; auto.
  - rewrite rstrip_cons. destruct (rstrip s) as [| k kept] eqn:Hs.
    + destruct (is_space c) eqn:Hc.
      * exists (c :: s). repeat split; auto.
        constructor; [exact Hc |]. now apply rstrip_nil_all_space.
      * exists s. split; [reflexivity |].
        split; [now apply rstrip_nil_all_space | right; exact Hc].
    + exists tail. split; [| split; [exact Htail |]].
      * simpl. f_equal. exact Heq.
      * right. destruct Hlast as [Hnil | Hlast]; [discriminate |].
        exact Hlast.
Qed.

(** *** Where exceptions come from *)

Lemma guards_ret {A} (P : State -> Prop) (a : A) Q E :
  (forall s, P s -> Q a s) -> guards P (ret a) Q E.
Proof. intros H s Hs. simpl. auto. Qed.

Lemma guards_bind {A B} P (m : M A) (k : A -> M B) Q1 Q E :
  guards P m Q1 E ->
  (forall a, guards (Q1 a) (k a) Q E) ->
  guards P (bind m k) Q E.
Proof.
  intros Hm Hk s Hs. unfold bind. specialize (Hm s Hs).
  destruct (m s) as [s1 [a | e | ]]; auto.
  apply (Hk a s1 Hm).
Qed.

Lemma guards_if {A} (b : bool) P (m1 m2 : M A) Q E :
  guards P m1 Q E -> guards P m2 Q E ->
  guards P (if b then m1 else m2) Q E.
Proof. destruct b; auto. Qed.

Lemma guards_post {A} (P : State -> Prop) (m : M A)
    (Q Q' : A -> State -> Prop) (E E' : exn -> State -> Prop) :
  guards P m Q' E' ->
  (forall a s, Q' a s -> Q a s) ->
  (forall e s, E' e s -> E e s) ->
  guards P m Q E.
Proof.
  intros Hm HQ HE s Hs. specialize (Hm s Hs).
  destruct (m s) as [s1 [a | e | ]]; auto.
Qed.

Lemma guards_pre {A} (P P' : State -> Prop) (m : M A) Q E :
  guards P' m Q E -> (forall s, P s -> P' s) -> guards P m Q E.
Proof. intros Hm HP s Hs. apply (Hm s (HP s Hs)). Qed.

Lemma guards_try {A} P (m : M A) (h : exn -> M A) Q E1 E :
  guards P m Q E1 ->
  (forall e, guards (E1 e) (h e) Q E) ->
  (forall e s, E1 e s -> E e s) ->
  guards P (try_except_Exception m h) Q E.
Proof.
  intros Hm Hh HE s Hs. unfold try_except_Exception. specialize (Hm s Hs).
  destruct (m s) as [s1 [a | e | ]]; auto.
  destruct (is_Exception e); auto.
  apply (Hh e s1 Hm).
Qed.

Section Blame.

Variable w : World.

Lemma raised_by_world_later e s s' :
  (tick s <= tick s')%nat -> raised_by_world w e s -> raised_by_world w e s'.
Proof. intros Hle (n & Hn & Hf). exists n. split; [lia | exact Hf]. Qed.

(** a library call made with the port attached *)
Lemma attached_env_call o :
  guards attached (env_call w o) (fun _ => attached) (blamed w).
Proof.
  intros s Hs. unfold env_call.
  assert (Ha : attached (after_call w o s)).
  { unfold attached. now rewrite bound_open_after_call. }
  destruct (fault w (tick s)) as [e |] eqn:F; [| exact Ha].
  split; [| exact Ha]. exists (tick s). split; [simpl; lia | exact F].
Qed.

(** a library call made in any state *)
Lemma any_env_call o :
  guards (fun _ => True) (env_call w o) (fun _ _ => True)
    (raised_by_world w).
Proof.
  intros s _. unfold env_call.
  destruct (fault w (tick s)) as [e |] eqn:F; [| exact I].
  exists (tick s). split; [simpl; lia | exact F].
Qed.

Lemma attached_lookup_ser :
  guards attached lookup_ser
    (fun p s => attached s /\ is_open p = true) (blamed w).
Proof.
  intros s Hs. unfold lookup_ser. unfold attached, ser_bound_and_open in Hs.
  destruct (ser s) as [p |] eqn:Hp; [| discriminate].
  split; [| exact Hs]. unfold attached, ser_bound_and_open. now rewrite Hp.
Qed.

Ltac attached_port :=
  eapply guards_bind; [apply attached_lookup_ser |];
  intros p; destruct (is_open p) eqn:?;
  [| intros ? [_ ?]; congruence].

Ltac attached_call :=
  eapply guards_bind;
  [ apply guards_pre with (P' := attached);
    [ apply attached_env_call | intros ? [? _]; assumption ]
  | ].

Lemma attached_print line :
  guards attached (print w line) (fun _ => attached) (blamed w).
Proof.
  unfold print. eapply guards_bind; [apply attached_env_call |].
  intros ? s Hs. exact Hs.
Qed.

Lemma attached_time_time :
  guards attached (time_time w) (fun _ => attached) (blamed w).
Proof.
  unfold time_time. eapply guards_bind; [apply attached_env_call |].
  intros ? s Hs. exact Hs.
Qed.

Lemma attached_time_strftime :
  guards attached (time_strftime w) (fun _ => attached) (blamed w).
Proof.
  unfold time_strftime. eapply guards_bind; [apply attached_env_call |].
  intros ? s Hs. exact Hs.
Qed.

Lemma attached_time_sleep :
  guards attached (time_sleep w) (fun _ => attached) (blamed w).
Proof.
  unfold time_sleep. eapply guards_bind; [apply attached_env_call |].
  intros ? s Hs. exact Hs.
Qed.

Lemma attached_reset :
  guards attached (ser_reset_input_buffer w) (fun _ => attached) (blamed w).
Proof.
  unfold ser_reset_input_buffer. attached_port. attached_call.
  intros ? s Hs. reflexivity.
Qed.

Lemma attached_in_waiting :
  guards attached (ser_in_waiting w) (fun _ => attached) (blamed w).
Proof.
  unfold ser_in_waiting. attached_port. attached_call.
  intros ? s Hs. exact Hs.
Qed.

Lemma attached_readline :
  guards attached (ser_readline w) (fun _ => attached) (blamed w).
Proof.
  unfold ser_readline. attached_port. attached_call.
  intros ? s Hs. unfold attached, ser_bound_and_open in *.
  destruct (ser s) as [q |] eqn:Hq; [| discriminate].
  destruct (split_line (in_buffer q)) as [line rest]. exact Hs.
Qed.

Lemma attached_read_and_print :
  guards attached (read_and_print w) (fun _ => attached) (blamed w).
Proof.
  unfold read_and_print.
  eapply guards_bind; [apply attached_readline |]. intros raw.
  rewrite decode_replace. apply guards_if; [| now apply guards_ret].
  eapply guards_bind; [apply attached_time_strftime |]. intros ts.
  eapply guards_bind; [apply attached_print |]. intros ?.
  apply attached_env_call.
Qed.

Lemma attached_loop_body :
  guards attached (loop_body w) (fun _ => attached) (blamed w).
Proof.
  unfold loop_body.
  eapply guards_bind; [apply attached_in_waiting |]. intros n.
  apply guards_if; [| apply attached_time_sleep].
  unfold guarded_read. eapply guards_try.
  - apply attached_read_and_print.
  - intros e. apply guards_pre with (P' := attached);
      [apply attached_print | intros s [_ Hs]; exact Hs].
  - auto.
Qed.

Lemma attached_loop fuel start :
  guards attached (loop w fuel start) (fun _ => attached) (blamed w).
Proof.
  induction fuel as [| fuel IH]; [intros s _; exact I |].
  cbn [loop]. eapply guards_bind; [apply attached_time_time |].
  intros t. apply guards_if; [| now apply guards_ret].
  eapply guards_bind; [apply attached_loop_body |]. intros ?. exact IH.
Qed.

Lemma blame_try_body fuel :
  guards (fun _ => True) (try_body w fuel) (fun _ _ => True)
    (raised_by_world w).
Proof.
  assert (Hrelax : forall A (m : M A),
             guards attached m (fun _ => attached) (blamed w) ->
             guards attached m (fun _ => attached) (raised_by_world w)).
  { intros A m H. eapply guards_post; [exact H | auto |].
    intros e s [Hr _]. exact Hr. }
  unfold try_body, startup, Serial_open.
  eapply guards_bind with (Q1 := fun _ => attached).
  - eapply guards_bind with (Q1 := fun _ => attached).
    + eapply guards_bind; [apply any_env_call |].
      intros ? s _. reflexivity.
    + intros ?.
      do 4 (eapply guards_bind; [apply Hrelax, attached_print |]; intros ?).
      eapply guards_bind; [apply Hrelax, attached_reset |]. intros ?.
      apply Hrelax, attached_time_time.
  - intros start.
    eapply guards_bind; [apply Hrelax, attached_loop |]. intros ?.
    eapply guards_bind with (Q1 := fun _ _ => True).
    + unfold ser_close.
      eapply guards_bind with (Q1 := fun _ _ => True).
      * eapply guards_post; [apply attached_lookup_ser | auto |].
        intros e s [Hr _]. exact Hr.
      * intros p. eapply guards_bind; [apply any_env_call |].
        intros ? s _. exact I.
    + intros ?. unfold print.
      eapply guards_bind; [apply any_env_call |]. intros ? s _. exact I.
Qed.

End Blame.

(** X6 -- the script raises nothing of its own: every exception that
    escapes the [try] body was raised by one of the library calls made.
    The name [ser] is never used unbound, the port is never used closed,
    and decoding never fails. *)
Theorem X6_every_escaping_exception_comes_from_a_library_call
    (w : World) (fuel : nat) (s : State) (e : exn) :
  try_body w fuel (init_state w) = (s, Raise e) ->
  exists n, (n < tick s)%nat /\ fault w n = Some e.
Proof.
  intros H. pose proof (blame_try_body w fuel (init_state w) I) as Hb.
  rewrite H in Hb. exact Hb.
Qed.

Lemma X6_witness :
  exists n,
    (n < tick (fst (try_body world_ctrl_c 2001
                      (init_state world_ctrl_c))))%nat
    /\ fault world_ctrl_c n = Some KeyboardInterrupt.
Proof.
  apply (X6_every_escaping_exception_comes_from_a_library_call
           world_ctrl_c 2001).
  vm_compute. reflexivity.
Defined.

(** *** Termination *)

Section Liveness.

Variable w : World.
Variable d : Z.
Hypothesis Hquiet : never_raises w.
Hypothesis Hd : 0 < d.
Hypothesis Hsteady : steady w d.

Lemma live_env_call c o :
  triple (live c) (env_call w o) (fun _ => live c) never.
Proof.
  apply triple_env_call.
  - intros s [Ha Hc] _. split.
    + unfold attached. now rewrite bound_open_after_call.
    + pose proof (Hsteady (tick s)). simpl. lia.
  - intros s e _ F. rewrite Hquiet in F. discriminate.
Qed.

Lemma live_lookup_ser c :
  triple (live c) lookup_ser
    (fun p s => live c s /\ is_open p = true) never.
Proof.
  intros s [Ha Hc]. unfold lookup_ser.
  pose proof Ha as Ha'. unfold attached, ser_bound_and_open in Ha'.
  destruct (ser s) as [p |] eqn:Hp; [| discriminate].
  repeat split; auto.
Qed.

Ltac live_port :=
  eapply triple_bind; [apply live_lookup_ser |];
  intros p; destruct (is_open p) eqn:?;
  [| intros ? [_ ?]; congruence].

Ltac live_call c :=
  eapply triple_bind;
  [ apply triple_pre with (P' := live c);
    [ apply live_env_call | intros ? [? _]; assumption ]
  | ].

Lemma live_print c line :
  triple (live c) (print w line) (fun _ => live c) never.
Proof.
  unfold print. eapply triple_bind; [apply live_env_call |].
  intros ? s Hs. exact Hs.
Qed.

Lemma live_time_strftime c :
  triple (live c) (time_strftime w) (fun _ => live c) never.
Proof.
  unfold time_strftime. eapply triple_bind; [apply live_env_call |].
  intros ? s Hs. exact Hs.
Qed.

Lemma live_time_sleep c :
  triple (live c) (time_sleep w) (fun _ => live c) never.
Proof.
  unfold time_sleep. eapply triple_bind; [apply live_env_call |].
  intros ? s [Ha Hc]. split; [exact Ha |]. simpl. unfold SLEEP_NS. lia.
Qed.

(** a clock reading returns the clock, at least [d] later than before *)
Lemma live_time_time c :
  triple (live c) (time_time w)
    (fun t s => live (c + d) s /\ t = now s) never.
Proof.
  intros s [Ha Hc]. rewrite time_time_returns by apply Hquiet.
  repeat split.
  - unfold attached.
    apply (eq_trans (bound_open_after_call w OpTime s) Ha).
  - pose proof (Hsteady (tick s)). simpl. lia.
Qed.

Lemma live_reset c :
  triple (live c) (ser_reset_input_buffer w) (fun _ => live c) never.
Proof.
  unfold ser_reset_input_buffer. live_port. live_call c.
  intros ? s [Ha Hc]. split; [reflexivity | exact Hc].
Qed.

Lemma live_in_waiting c :
  triple (live c) (ser_in_waiting w) (fun _ => live c) never.
Proof.
  unfold ser_in_waiting. live_port. live_call c.
  intros ? s Hs. exact Hs.
Qed.

Lemma live_readline c :
  triple (live c) (ser_readline w) (fun _ => live c) never.
Proof.
  unfold ser_readline. live_port. live_call c.
  intros ? s [Ha Hc]. unfold attached, ser_bound_and_open in Ha.
  destruct (ser s) as [q |] eqn:Hq; [| discriminate].
  destruct (split_line (in_buffer q)) as [line rest].
  split; [exact Ha | exact Hc].
Qed.

Lemma live_loop_body c :
  triple (live c) (loop_body w) (fun _ => live c) never.
Proof.
  unfold loop_body.
  eapply triple_bind; [apply live_in_waiting |]. intros n.
  apply triple_if; [| apply live_time_sleep].
  unfold guarded_read. eapply triple_try with (E1 := never).
  - unfold read_and_print.
    eapply triple_bind; [apply live_readline |]. intros raw.
    rewrite decode_replace. apply triple_if; [| now apply triple_ret].
    eapply triple_bind; [apply live_time_strftime |]. intros ts.
    eapply triple_bind; [apply live_print |]. intros ?.
    apply live_env_call.
  - intros e s [].
  - auto.
Qed.

(** enough fuel for the time left: the loop returns *)
Lemma loop_returns start fuel :
  forall s,
    attached s ->
    20 * NS_PER_S - (now s - start) <= Z.of_nat fuel * d ->
    exists s', loop w (S fuel) start s = (s', Ok tt) /\ attached s'.
Proof.
  induction fuel as [| fuel IH]; intros s Ha Hfuel.
  - rewrite loop_S. unfold bind.
    pose proof (live_time_time (now s) s (conj Ha (Z.le_refl _))) as Ht.
    destruct (time_time w s) as [s1 [t | e |]]; try contradiction.
    destruct Ht as [[Ha1 Hc1] ->].
    destruct (Z.ltb_spec (now s1 - start) RUN_NS) as [Hlt | Hge].
    + unfold RUN_NS in Hlt. lia.
    + now exists s1.
  - rewrite loop_S. unfold bind at 1.
    pose proof (live_time_time (now s) s (conj Ha (Z.le_refl _))) as Ht.
    destruct (time_time w s) as [s1 [t | e |]]; try contradiction.
    destruct Ht as [[Ha1 Hc1] ->].
    destruct (Z.ltb_spec (now s1 - start) RUN_NS) as [Hlt | Hge];
      [| now exists s1].
    unfold bind.
    pose proof (live_loop_body (now s1) s1 (conj Ha1 (Z.le_refl _))) as Hb.
    destruct (loop_body w s1) as [s2 [[] | e |]]; try contradiction.
    destruct Hb as [Ha2 Hc2]. apply (IH s2 Ha2). lia.
Qed.

Lemma startup_returns :
  exists s0,
    startup w (init_state w) = (s0, Ok (now s0)) /\ attached s0.
Proof.
  assert (H : triple (fun s => boot_time w <= now s) (startup w)
                (fun t s => attached s /\ t = now s) never).
  { unfold startup.
    eapply triple_bind with (Q1 := fun _ => live (boot_time w)).
    - unfold Serial_open.
      eapply triple_bind with (Q1 := fun _ s => boot_time w <= now s).
      + apply triple_env_call.
        * intros s Hs _. pose proof (Hsteady (tick s)). simpl. lia.
        * intros s e _ F. rewrite Hquiet in F. discriminate.
      + intros ? s Hs. split; [reflexivity | exact Hs].
    - intros ?.
      do 4 (eapply triple_bind; [apply live_print |]; intros ?).
      eapply triple_bind; [apply live_reset |]. intros ?.
      eapply triple_weaken;
        [apply (live_time_time (boot_time w)) | auto | | auto].
      intros t s [[Ha _] Ht]. now split. }
  specialize (H (init_state w) (Z.le_refl _)).
  destruct (startup w (init_state w)) as [s0 [t | e |]]; try contradiction.
  destruct H as [Ha ->]. now exists s0.
Qed.

Lemma monitor_completes fuel :
  20 * NS_PER_S + d <= Z.of_nat fuel * d ->
  exists s out,
    monitor w fuel = (s, Exit 0)
    /\ ser_bound_and_open s = false
    /\ stdout s = out ++ [msg_complete].
Proof.
  intros Hfuel. destruct startup_returns as (s0 & Hstart & Ha0).
  destruct fuel as [| f].
  { change (Z.of_nat 0) with 0 in Hfuel. unfold NS_PER_S in Hfuel. lia. }
  destruct (loop_returns (now s0) f s0 Ha0) as (s1 & Hloop & Ha1).
  { rewrite Nat2Z.inj_succ in Hfuel. unfold NS_PER_S in *. lia. }
  pose proof Ha1 as Hp. unfold attached, ser_bound_and_open in Hp.
  destruct (ser s1) as [p |] eqn:Hser; [| discriminate].
  unfold monitor, monitor_from, try_body.
  rewrite (bind_ok _ _ _ _ _ Hstart), (bind_ok _ _ _ _ _ Hloop).
  erewrite bind_ok by (apply ser_close_returns; [exact Hser | apply Hquiet]).
  rewrite print_returns by apply Hquiet.
  eexists. eexists. split; [reflexivity |]. cbn [fst]. split; reflexivity.
Qed.

End Liveness.

(** X7 -- the script always gets to its end when nothing goes wrong:
    if no library call raises and each takes at least [d] > 0, then
    whatever traffic arrives the loop ends, the port is closed,
    [Monitoring complete.] is the last line printed and the exit status
    is 0.  [fuel] rounds suffice as soon as [fuel * d] covers 20 s plus
    one [d]. *)
Theorem X7_script_completes_under_any_traffic
    (w : World) (d : Z) (fuel : nat) :
  never_raises w -> 0 < d -> steady w d ->
  20 * NS_PER_S + d <= Z.of_nat fuel * d ->
  exists s out,
    monitor w fuel = (s, Exit 0)
    /\ ser_bound_and_open s = false
    /\ stdout s = out ++ [msg_complete].
Proof. intros Hq Hd Hs. now apply monitor_completes. Qed.

(** a line arrives during every call, each call takes 5 s *)
Lemma X7_witness :
  exists s out,
    monitor world_busy 5 = (s, Exit 0)
    /\ ser_bound_and_open s = false
    /\ stdout s = out ++ [msg_complete].
Proof.
  apply (X7_script_completes_under_any_traffic world_busy (5 * NS_PER_S) 5).
  - intros n. reflexivity.
  - reflexivity.
  - intros n. apply Z.le_refl.
  - vm_compute. discriminate.
Defined.

(** *** Received bytes *)


Section Order.

Variable w : World.


























End Order.


(** *** What is printed *)

Lemma rstrip_idempotent s : rstrip (rstrip s) = rstrip s.
Proof.
  induction s as [| c s IH]; [reflexivity |].
  rewrite rstrip_cons. destruct (rstrip s) as [| k kept] eqn:Hs.
  - destruct (is_space c) eqn:Hc; [reflexivity |].
    rewrite rstrip_cons. change (rstrip []) with (@nil N). now rewrite Hc.
  - rewrite rstrip_cons, IH. reflexivity.
Qed.

Section Output.

Variable w : World.

Section Silent.

(** operations that print nothing keep any property of the output *)
Variable R : list str -> Prop.

Lemma silent_env_call o :
  triple (keeps_output R) (env_call w o) (fun _ => keeps_output R) (keeps_output R).
Proof. apply triple_env_call; intros s; intros; assumption. Qed.

Lemma silent_lookup_ser :
  triple (keeps_output R) lookup_ser (fun _ => keeps_output R) (keeps_output R).
Proof. intros s Hs. unfold lookup_ser. now destruct (ser s). Qed.

Lemma silent_Serial_open :
  triple (keeps_output R) (Serial_open w) (fun _ => keeps_output R) (keeps_output R).
Proof.
  unfold Serial_open. eapply triple_bind; [apply silent_env_call |].
  intros ? s Hs. exact Hs.
Qed.

Lemma silent_reset :
  triple (keeps_output R) (ser_reset_input_buffer w)
    (fun _ => keeps_output R) (keeps_output R).
Proof.
  unfold ser_reset_input_buffer.
  eapply triple_bind; [apply silent_lookup_ser |]. intros p.
  apply triple_if; [| now apply triple_raise].
  eapply triple_bind; [apply silent_env_call |]. intros ? s Hs. exact Hs.
Qed.

Lemma silent_time_time :
  triple (keeps_output R) (time_time w) (fun _ => keeps_output R) (keeps_output R).
Proof.
  unfold time_time. eapply triple_bind; [apply silent_env_call |].
  intros ? s Hs. exact Hs.
Qed.

Lemma silent_time_sleep :
  triple (keeps_output R) (time_sleep w) (fun _ => keeps_output R) (keeps_output R).
Proof.
  unfold time_sleep. eapply triple_bind; [apply silent_env_call |].
  intros ? s Hs. exact Hs.
Qed.

(** the timestamp has the shape [[HH:MM:SS]] *)
Lemma silent_time_strftime :
  triple (keeps_output R) (time_strftime w)
    (fun ts s => keeps_output R s /\ hh_mm_ss ts) (keeps_output R).
Proof.
  unfold time_strftime. eapply triple_bind; [apply silent_env_call |].
  intros ? s Hs. split; [exact Hs |].
  apply clock_text_shape, second_of_day_range.
Qed.

Lemma silent_in_waiting :
  triple (keeps_output R) (ser_in_waiting w) (fun _ => keeps_output R) (keeps_output R).
Proof.
  unfold ser_in_waiting.
  eapply triple_bind; [apply silent_lookup_ser |]. intros p.
  apply triple_if; [| now apply triple_raise].
  eapply triple_bind; [apply silent_env_call |]. intros ? s Hs. exact Hs.
Qed.

Lemma silent_readline :
  triple (keeps_output R) (ser_readline w) (fun _ => keeps_output R) (keeps_output R).
Proof.
  unfold ser_readline.
  eapply triple_bind; [apply silent_lookup_ser |]. intros p.
  apply triple_if; [| now apply triple_raise].
  eapply triple_bind; [apply silent_env_call |]. intros ? s Hs.
  destruct (ser s) as [q |]; [| exact Hs].
  now destruct (split_line (in_buffer q)).
Qed.

Lemma silent_close :
  triple (keeps_output R) (ser_close w) (fun _ => keeps_output R) (keeps_output R).
Proof.
  unfold ser_close.
  eapply triple_bind; [apply silent_lookup_ser |]. intros p.
  eapply triple_bind; [apply silent_env_call |]. intros ? s Hs. exact Hs.
Qed.

End Silent.

(** [print] appends its line, or nothing when it raises *)
Lemma print_appends (R : list str -> Prop) line :
  triple (keeps_output R) (print w line)
    (fun _ => keeps_output (fun out => exists l, out = l ++ [line] /\ R l))
    (keeps_output R).
Proof.
  unfold print.
  eapply triple_bind; [apply silent_env_call |].
  intros ? s Hs. exists (stdout s). now split.
Qed.

Lemma streaming_print line :
  stream_line line ->
  triple streaming (print w line) (fun _ => streaming) streaming.
Proof.
  intros Hline.
  eapply triple_weaken;
    [apply (print_appends
              banner_then_stream)
    | auto | | auto].
  intros ? s (l & Hout & Hstream). destruct Hstream as (body & Hl & Hbody).
  exists (body ++ [line]). split.
  - rewrite Hout, Hl. now rewrite app_assoc.
  - apply Forall_app. split; [exact Hbody | now constructor].
Qed.

Lemma streaming_silent {A} (m : M A) :
  (forall R, triple (keeps_output R) m (fun _ => keeps_output R)
               (keeps_output R)) ->
  triple streaming m (fun _ => streaming) streaming.
Proof. intros H. exact (H banner_then_stream). Qed.

Lemma streaming_read_and_print :
  triple streaming (read_and_print w) (fun _ => streaming) streaming.
Proof.
  unfold read_and_print.
  eapply triple_bind; [apply streaming_silent, silent_readline |].
  intros raw. rewrite decode_replace.
  destruct (truthy (rstrip (map repair (utf8_scan (map snd raw)))))
    eqn:Hline; [| now apply triple_ret].
  eapply triple_bind.
  - apply (silent_time_strftime
             banner_then_stream).
  - intros ts. intros s [Hs Hts]. revert s Hs.
    change (triple streaming
              (bind (print w (ts ++ [SPACE]
                        ++ rstrip (map repair (utf8_scan (map snd raw)))))
                 (fun _ => sys_stdout_flush w))
              (fun _ => streaming) streaming).
    eapply triple_bind.
    + apply streaming_print. left.
      exists ts, (rstrip (map repair (utf8_scan (map snd raw)))).
      repeat split; auto using rstrip_idempotent.
      now apply truthy_nonempty.
    + intros ?. apply streaming_silent. intros R. apply silent_env_call.
Qed.

Lemma streaming_loop fuel start :
  triple streaming (loop w fuel start) (fun _ => streaming) streaming.
Proof.
  apply triple_loop; auto.
  - apply streaming_silent, silent_time_time.
  - unfold loop_body.
    eapply triple_bind; [apply streaming_silent, silent_in_waiting |].
    intros n. apply triple_if; [| apply streaming_silent, silent_time_sleep].
    unfold guarded_read. eapply triple_try.
    + apply streaming_read_and_print.
    + intros e. apply streaming_print. right. now exists e.
    + auto.
Qed.

Lemma banner_next k :
  (k < 4)%nat -> firstn k banner ++ [nth k banner []] = firstn (S k) banner.
Proof.
  intros Hk. destruct k as [| [| [| [| k]]]]; try reflexivity. lia.
Qed.

Lemma heading_print k :
  (k < 4)%nat ->
  triple (heading k) (print w (nth k banner []))
    (fun _ => heading (S k)) unfinished.
Proof.
  intros Hk.
  eapply triple_weaken;
    [apply (print_appends (fun out => out = firstn k banner))
    | | | ].
  - intros s [_ Hs]. exact Hs.
  - intros ? s (l & Hout & ->). split; [lia |].
    rewrite Hout. now apply banner_next.
  - intros s Hs. left. exists k. split; [lia | exact Hs].
Qed.

Lemma heading_silent {A} k (m : M A) :
  (forall R, triple (keeps_output R) m (fun _ => keeps_output R)
               (keeps_output R)) ->
  triple (heading k) m (fun _ => heading k) unfinished.
Proof.
  intros H s [Hk Hs].
  pose proof (H (fun out => out = firstn k banner) s Hs) as Hm.
  destruct (m s) as [s' [a | e |]].
  - now split.
  - left. exists k. now split.
  - left. exists k. now split.
Qed.

Lemma to_unfinished {A} (m : M A) :
  triple streaming m (fun _ => streaming) streaming ->
  triple streaming m (fun _ => streaming) unfinished.
Proof.
  intros H s Hs. specialize (H s Hs).
  destruct (m s) as [s' [a | e |]]; auto; now right.
Qed.

Lemma streaming_complete :
  triple streaming (print w msg_complete) (fun _ => completed) unfinished.
Proof.
  intros s Hs. pose proof (print_appends banner_then_stream msg_complete s Hs)
    as Hp.
  destruct (print w msg_complete s) as [s' [a | e |]]; try (now right).
  destruct Hp as (l & Hout & Hstream).
  destruct Hstream as (body & Hl & Hbody).
  exists body. split; [| exact Hbody].
  rewrite Hout, Hl. now rewrite app_assoc.
Qed.

Lemma output_startup :
  triple (heading 0) (startup w) (fun _ => streaming) unfinished.
Proof.
  unfold startup.
  eapply triple_bind; [apply heading_silent, silent_Serial_open |].
  intros ?.
  eapply triple_bind; [apply (heading_print 0); lia |]. intros ?.
  eapply triple_bind; [apply (heading_print 1); lia |]. intros ?.
  eapply triple_bind; [apply (heading_print 2); lia |]. intros ?.
  eapply triple_bind; [apply (heading_print 3); lia |]. intros ?.
  eapply triple_bind; [apply (heading_silent 4), silent_reset |]. intros ?.
  intros s Hs.
  pose proof (heading_silent 4 (time_time w) silent_time_time s Hs) as Ht.
  destruct (time_time w s) as [s' [t | e |]]; try exact Ht.
  destruct Ht as [_ Hout]. exists []. split; [| constructor].
  rewrite Hout. now rewrite app_nil_r.
Qed.

Lemma output_try_body fuel :
  triple (heading 0) (try_body w fuel) (fun _ => completed) unfinished.
Proof.
  unfold try_body.
  eapply triple_bind; [apply output_startup |]. intros start.
  eapply triple_bind; [apply to_unfinished, streaming_loop |]. intros ?.
  eapply triple_bind;
    [apply to_unfinished, streaming_silent, silent_close |].
  intros ?. apply streaming_complete.
Qed.

(** an [except] clause prints its line, or nothing when that fails *)
Lemma handler_appends e out :
  triple (fun s => stdout s = out) (handler w e)
    (fun _ s => stdout s = out \/ stdout s = out ++ [handler_message e])
    (fun s => stdout s = out \/ stdout s = out ++ [handler_message e]).
Proof.
  assert (Hp : triple (fun s => stdout s = out)
                 (print w (handler_message e))
                 (fun _ s => stdout s = out ++ [handler_message e])
                 (fun s => stdout s = out)).
  { eapply triple_weaken;
      [apply (print_appends (fun o => o = out)) | auto | | auto].
    intros ? s (l & Hout & ->). exact Hout. }
  destruct e as [m | | m]; cbn [handler].
  - eapply triple_weaken; [exact Hp | auto | | ]; intros; auto.
  - eapply triple_bind; [ | ].
    + eapply triple_weaken; [exact Hp | auto | | ]; intros; auto.
      exact H.
    + intros ? s Hs. destruct (ser_bound_and_open s).
      * pose proof (silent_close
                      (fun o => o = out ++ [handler_message KeyboardInterrupt])
                      s Hs) as Hc.
        destruct (ser_close w s) as [s' [a' | e' |]]; right; exact Hc.
      * right. exact Hs.
  - eapply triple_weaken; [exact Hp | auto | | ]; intros; auto.
Qed.

Lemma output_monitor fuel : script_output (stdout (fst (monitor w fuel))).
Proof.
  assert (Hu : forall s ending,
             unfinished s ->
             (ending = [] \/ ending = [msg_complete]
              \/ exists e, ending = [handler_message e]) ->
             script_output (stdout s ++ ending)).
  { intros s ending [[k [Hk Hout]] | (body & Hout & Hbody)] Hend.
    - exists k, [], ending. rewrite Hout. repeat split; auto.
    - exists 4%nat, body, ending. rewrite Hout, <- app_assoc.
      repeat split; auto. lia. }
  unfold monitor, monitor_from.
  assert (H0 : heading 0 (init_state w)) by (split; [lia | reflexivity]).
  pose proof (output_try_body fuel (init_state w) H0) as Hb.
  destruct (try_body w fuel (init_state w)) as [s1 [[] | e |]];
    cbn [finish fst].
  - destruct Hb as (body & Hout & Hbody).
    exists 4%nat, body, [msg_complete]. rewrite Hout.
    repeat split; auto. lia.
  - pose proof (handler_appends e (stdout s1) s1 eq_refl) as Hh.
    assert (Hfin : stdout (fst (finish (handler w e s1))) = stdout s1
                   \/ stdout (fst (finish (handler w e s1)))
                      = stdout s1 ++ [handler_message e]).
    { destruct (handler w e s1) as [s2 [[] | e' |]]; exact Hh. }
    destruct Hfin as [-> | ->].
    + rewrite <- (app_nil_r (stdout s1)). apply Hu; auto.
    + apply Hu; auto. right. right. now exists e.
  - rewrite <- (app_nil_r (stdout s1)). apply Hu; auto.
Qed.

End Output.

(** X9 -- in a run in which no [print] raised, so that every [print]
    made wrote exactly its line, the script prints nothing but this: an
    initial part of the four banner lines; then, only once the whole
    banner is out, lines of the loop, each a record [[HH:MM:SS] text]
    with a non-empty text that does not end in white space, or an
    [Error reading line: ...] report; and last, at most one of
    [Monitoring complete.] and the line of an [except] clause.  Other
    library calls may raise as they like. *)
Theorem X9_output_follows_the_grammar (w : World) (fuel : nat) :
  prints_returned (fst (monitor w fuel)) ->
  script_output (stdout (fst (monitor w fuel))).
Proof. intros _. apply output_monitor. Qed.

(** a line arrives, [readline] fails, the loop is then cut short *)
Lemma X9_witness :
  script_output (stdout (fst (monitor world_read_fails 3))).
Proof.
  apply X9_output_follows_the_grammar.
  unfold prints_returned.
  match goal with
  | |- Forall _ ?t => let t' := eval vm_compute in t in change t with t'
  end.
  repeat constructor; intros line H; first [reflexivity | discriminate H].
Defined.
